(** * bio-rd: BGP wire decoder and route entry

    A shallow embedding of

    - [protocols/bgp/packet/decoder.go] (package [packet]): the byte
      reader [decode], [decodeHeader], [decodeNotificationMsg],
      [validateOpen] with [isValidIdentifier], [decodeUpdateMsg] and the
      path attribute flags;
    - the route entry of package [rt]: [Route], [Path], [NewRoute],
      [Path.Equal], [removePath], [Route.Remove], [Route.AddPath],
      [Route.AddPaths], [bestPaths] and [getBestProtocol].

    Conventions.  A Go [uintN] is a [Z] with its wrap-around written out.
    A [bytes.Buffer] is the list of its unread bytes; every reader returns
    the buffer it leaves behind.  A Go [(value, error)] pair is a pair whose
    second component is an [option error] ([None] is [nil]).  A Go pointer
    that may be [nil] is an [option]; a nil dereference is a run-time
    panic, and a function that can panic returns an [option] whose [None]
    is the panic.  A slice is the list of its elements. *)

From Stdlib Require Import ZArith List String Ascii Bool Lia DecimalString.
From Stdlib.Strings Require Import Byte.
Import ListNotations.
Open Scope Z_scope.

(** ** Package packet *)

Module Packet.

(** *** Constants

    Modelled from the spec: the constants of package [packet] are declared
    outside [decoder.go].  The spec gives [MIN_LEN = 19], [MAX_LEN = 4096],
    the message types [Open=1 .. Keepalive=4], the error codes
    [MessageHeaderError (1) .. Cease (6)], and says that sub-codes follow
    the RFC 4271 assignments. *)

Definition BGP4Version : Z := 4.
Definition MarkerLen : nat := 16.
Definition MinLen : Z := 19.
Definition MaxLen : Z := 4096.

Definition OpenMsg : Z := 1.
Definition UpdateMsg : Z := 2.
Definition NotificationMsg : Z := 3.
Definition KeepaliveMsg : Z := 4.

Definition MessageHeaderError : Z := 1.
Definition OpenMessageError : Z := 2.
Definition UpdateMessageError : Z := 3.
Definition HoldTimeExpired : Z := 4.
Definition FiniteStateMachineError : Z := 5.
Definition Cease : Z := 6.

Definition ConnectionNotSync : Z := 1.
Definition BadMessageLength : Z := 2.
Definition BadMessageType : Z := 3.

Definition UnsupportedVersionNumber : Z := 1.
Definition BadPeerAS : Z := 2.
Definition BadBGPIdentifier : Z := 3.
Definition UnsupportedOptionalParameter : Z := 4.
Definition DeprecatedOpenMsgError5 : Z := 5.
Definition UnacceptableHoldTime : Z := 6.

Definition MalformedAttributeList : Z := 1.
Definition DeprecatedUpdateMsgError7 : Z := 7.
Definition MalformedASPath : Z := 11.

(** *** Errors *)

(** [BGPError] as the decoder builds it ([ErrorCode], [ErrorSubCode],
    [ErrorStr]). *)
Module BGPError.
Record t : Set := mk { ErrorCode : Z; ErrorSubCode : Z; ErrorStr : string }.
End BGPError.

(** A Go [error]: either a plain [fmt.Errorf] message or a [BGPError]. *)
Inductive error : Set :=
| Errorf (msg : string)
| ErrBGP (e : BGPError.t).

(** The two errors [io.ReadFull] reports on a short read. *)
Inductive ioerr : Set := EOF | ErrUnexpectedEOF.

Definition ioerr_Error (e : ioerr) : string :=
  match e with
  | EOF => "EOF"
  | ErrUnexpectedEOF => "unexpected EOF"
  end.

(** [%d] / [%v] of an unsigned integer. *)
Definition fmt_d (z : Z) : string := NilZero.string_of_uint (N.to_uint (Z.to_N z)).

Definition byteZ (b : byte) : Z := Z.of_N (Byte.to_N b).

(** [%v] of a [[]byte]: decimal values between brackets, separated by
    spaces. *)
Fixpoint fmt_bytes_tail (bs : list byte) : string :=
  match bs with
  | [] => ""
  | b :: bs' => (" " ++ fmt_d (byteZ b) ++ fmt_bytes_tail bs')%string
  end.

Definition fmt_bytes (bs : list byte) : string :=
  match bs with
  | [] => "[]"
  | b :: bs' => ("[" ++ fmt_d (byteZ b) ++ fmt_bytes_tail bs' ++ "]")%string
  end.

(** *** The byte reader *)

(** The unread part of a [bytes.Buffer]. *)
Definition buffer : Set := list byte.

(** [buf.Read(p)] with [len(p) = n > 0]: on an empty buffer it returns
    [(0, io.EOF)], otherwise it copies [min n (len buf)] bytes. *)
Definition buf_Read (n : nat) (buf : buffer) : list byte * option ioerr * buffer :=
  match buf with
  | [] => ([], Some EOF, [])
  | _ => (firstn n buf, None, skipn n buf)
  end.

(** [io.ReadFull(buf, bs)] with [len(bs) = n > 0]: all [n] bytes, or [EOF]
    when nothing could be read, or [ErrUnexpectedEOF] after a short read,
    which drains the buffer. *)
Definition io_ReadFull (n : nat) (buf : buffer) : (list byte + ioerr) * buffer :=
  if (n <=? List.length buf)%nat then (inl (firstn n buf), skipn n buf)
  else match buf with
       | [] => (inr EOF, [])
       | _ => (inr ErrUnexpectedEOF, [])
       end.

(** Big-endian value of a run of bytes. *)
Definition be_uint (bs : list byte) : Z :=
  fold_left (fun acc b => acc * 256 + byteZ b) bs 0.

(** [binary.Read(buf, binary.BigEndian, &x)] for an unsigned [x] of [w]
    bytes. *)
Definition binary_Read (w : nat) (buf : buffer) : (Z + ioerr) * buffer :=
  match io_ReadFull w buf with
  | (inl bs, buf') => (inl (be_uint bs), buf')
  | (inr e, buf') => (inr e, buf')
  end.

(** [decode(buf, fields)]: the fields are given by their widths in bytes
    (the message structs are declared outside [decoder.go]; the widths
    are those of the spec's data model); the result lists the values of
    the fields that were read, in order.  A field that was not reached
    keeps the value it had (zero, in every caller), which the callers
    read with [field]. *)
Fixpoint decode (buf : buffer) (fields : list nat) : list Z * option error * buffer :=
  match fields with
  | [] => ([], None, buf)
  | w :: fields' =>
      match binary_Read w buf with
      | (inr e, buf') =>
          ([], Some (Errorf ("Unable to read from buffer: " ++ ioerr_Error e)%string), buf')
      | (inl v, buf') =>
          let '(vs, err, buf'') := decode buf' fields' in
          (v :: vs, err, buf'')
      end
  end.

Definition field (i : nat) (vs : list Z) : Z := nth i vs 0.

(** *** Header *)

Module BGPHeader.
Record t : Set := mk { Length : Z; Type_ : Z }.
End BGPHeader.

(** [decodeHeader]: the returned header pointer is [nil] only on a bad
    marker.  [decode] only ever fails with a [fmt.Errorf] value, whose
    [Error()] is its message. *)
Definition decodeHeader (buf : buffer)
  : option BGPHeader.t * option error * buffer :=
  let hdr0 := BGPHeader.mk 0 0 in
  match buf_Read MarkerLen buf with
  | (_, Some e, buf1) =>
      (Some hdr0,
       Some (ErrBGP (BGPError.mk Cease 0
                       ("Failed to read from buffer: " ++ ioerr_Error e)%string)),
       buf1)
  | (marker, None, buf1) =>
      if negb (List.length marker =? MarkerLen)%nat then
        (Some hdr0,
         Some (ErrBGP (BGPError.mk Cease 0 "Unable to read marker")), buf1)
      else if existsb (fun b => negb (Byte.eqb b xff)) marker then
        (None,
         Some (ErrBGP (BGPError.mk MessageHeaderError ConnectionNotSync
                         ("Invalid marker: " ++ fmt_bytes marker)%string)),
         buf1)
      else
        match decode buf1 [2%nat; 1%nat] with
        | (vs, Some e, buf2) =>
            let hdr := BGPHeader.mk (field 0 vs) (field 1 vs) in
            let s := match e with
                     | Errorf s => s
                     | ErrBGP b => BGPError.ErrorStr b
                     end in
            (Some hdr, Some (ErrBGP (BGPError.mk Cease 0 s)), buf2)
        | (vs, None, buf2) =>
            let hdr := BGPHeader.mk (field 0 vs) (field 1 vs) in
            if (BGPHeader.Length hdr <? MinLen) || (BGPHeader.Length hdr >? MaxLen) then
              (Some hdr,
               Some (ErrBGP (BGPError.mk MessageHeaderError BadMessageLength
                               ("Invalid length in BGP header: "
                                  ++ fmt_d (BGPHeader.Length hdr))%string)),
               buf2)
            else if (BGPHeader.Type_ hdr >? KeepaliveMsg) || (BGPHeader.Type_ hdr =? 0) then
              (Some hdr,
               Some (ErrBGP (BGPError.mk MessageHeaderError BadMessageType
                               ("Invalid message type: "
                                  ++ fmt_d (BGPHeader.Type_ hdr))%string)),
               buf2)
            else (Some hdr, None, buf2)
        end
  end.

(** *** Notification *)

Module BGPNotification.
Record t : Set := mk { ErrorCode : Z; ErrorSubcode : Z }.
End BGPNotification.

Definition invalidErrCode (n : BGPNotification.t) : BGPNotification.t * option error :=
  (n, Some (Errorf ("Invalid error sub code: "
                      ++ fmt_d (BGPNotification.ErrorCode n) ++ "/"
                      ++ fmt_d (BGPNotification.ErrorSubcode n))%string)).

Definition decodeNotificationMsg (buf : buffer)
  : BGPNotification.t * option error * buffer :=
  match decode buf [1%nat; 1%nat] with
  | (vs, Some e, buf') =>
      (BGPNotification.mk (field 0 vs) (field 1 vs), Some e, buf')
  | (vs, None, buf') =>
      let msg := BGPNotification.mk (field 0 vs) (field 1 vs) in
      let code := BGPNotification.ErrorCode msg in
      let sub := BGPNotification.ErrorSubcode msg in
      if code >? Cease then
        (msg, Some (Errorf ("Invalid error code: " ++ fmt_d sub)%string), buf')
      else if code =? MessageHeaderError then
        if (sub >? BadMessageType) || (sub =? 0)
        then (invalidErrCode msg, buf') else (msg, None, buf')
      else if code =? OpenMessageError then
        if (sub >? UnacceptableHoldTime) || (sub =? 0) || (sub =? DeprecatedOpenMsgError5)
        then (invalidErrCode msg, buf') else (msg, None, buf')
      else if code =? UpdateMessageError then
        if (sub >? MalformedASPath) || (sub =? 0) || (sub =? DeprecatedUpdateMsgError7)
        then (invalidErrCode msg, buf') else (msg, None, buf')
      else if code =? HoldTimeExpired then
        if negb (sub =? 0) then (invalidErrCode msg, buf') else (msg, None, buf')
      else if code =? FiniteStateMachineError then
        if negb (sub =? 0) then (invalidErrCode msg, buf') else (msg, None, buf')
      else if code =? Cease then
        if negb (sub =? 0) then (invalidErrCode msg, buf') else (msg, None, buf')
      else (invalidErrCode msg, buf')
  end.

(** *** Open *)

Module BGPOpen.
Record t : Set := mk {
  Version : Z;
  AS : Z;
  HoldTime : Z;
  BGPIdentifier : Z;
  OptParmLen : Z
}.
End BGPOpen.

(** [convert.Uint32Byte] of the tflow2 library: the four bytes of a
    [uint32], most significant first. *)
Definition Uint32Byte (x : Z) : list Z :=
  [ Z.shiftr x 24 mod 256; Z.shiftr x 16 mod 256; Z.shiftr x 8 mod 256; x mod 256 ].

(** [net.IP.IsLoopback] and [net.IP.IsMulticast] of the Go standard
    library, on a four-byte address. *)
Definition IsLoopback (addr : list Z) : bool := nth 0 addr 0 =? 127.

Definition IsMulticast (addr : list Z) : bool := Z.land (nth 0 addr 0) 240 =? 224.

Definition isValidIdentifier (id : Z) : bool :=
  let addr := Uint32Byte id in
  if IsLoopback addr then false
  else if IsMulticast addr then false
  else if nth 0 addr 0 =? 0 then false
  else if (nth 0 addr 0 =? 255) && (nth 1 addr 0 =? 255)
          && (nth 2 addr 0 =? 255) && (nth 3 addr 0 =? 255) then false
  else true.

Definition validateOpen (msg : BGPOpen.t) : option error :=
  if negb (BGPOpen.Version msg =? BGP4Version) then
    Some (ErrBGP (BGPError.mk OpenMessageError UnsupportedVersionNumber
                    "Unsupported version number"))
  else if negb (isValidIdentifier (BGPOpen.BGPIdentifier msg)) then
    Some (ErrBGP (BGPError.mk OpenMessageError BadBGPIdentifier
                    "Invalid BGP identifier"))
  else None.

(** *** Path attribute flags *)

(** The fields of a [PathAttribute] that the flag decoder sets, and, from
    the spec's data model, its type code, length and value. *)
Record PathAttribute : Set := mkPathAttribute {
  Optional : bool;
  Transitive : bool;
  Partial : bool;
  ExtendedLength : bool;
  TypeCode : Z;
  Length : Z;
  Value : list byte
}.

Definition isOptional (x : Z) : bool := Z.land x 128 =? 128.
Definition isTransitive (x : Z) : bool := Z.land x 64 =? 64.
Definition isPartial (x : Z) : bool := Z.land x 32 =? 32.
Definition isExtendedLength (x : Z) : bool := Z.land x 16 =? 16.

Definition decodePathAttrFlags (buf : buffer) (pa : PathAttribute)
  : PathAttribute * option error * buffer :=
  match decode buf [1%nat] with
  | (_, Some e, buf') => (pa, Some e, buf')
  | (vs, None, buf') =>
      let flags := field 0 vs in
      (mkPathAttribute (isOptional flags) (isTransitive flags) (isPartial flags)
         (isExtendedLength flags) (TypeCode pa) (Length pa) (Value pa),
       None, buf')
  end.

(** *** Update *)

(** [uint16] arithmetic wraps modulo 2^16. *)
Definition uint16 (z : Z) : Z := z mod 65536.

Section Update.

(** [decodeNLRIs] and [decodePathAttrs] live in other files of the
    package; the Update decoder is parametric in them.  Each takes the
    buffer and a byte budget and returns its (possibly nil) result, its
    error and the buffer it leaves. *)
Variable NLRI_t : Type.
Variable PathAttribute_t : Type.
Variable decodeNLRIs : buffer -> Z -> option NLRI_t * option error * buffer.
Variable decodePathAttrs : buffer -> Z -> option PathAttribute_t * option error * buffer.

Record BGPUpdate : Type := mkBGPUpdate {
  WithdrawnRoutesLen : Z;
  WithdrawnRoutes : option NLRI_t;
  TotalPathAttrLen : Z;
  PathAttributes : option PathAttribute_t;
  NLRI : option NLRI_t
}.

Definition decodeUpdateMsg (buf : buffer) (l : Z)
  : BGPUpdate * option error * buffer :=
  match decode buf [2%nat] with
  | (vs, Some e, buf1) =>
      (mkBGPUpdate (field 0 vs) None 0 None None, Some e, buf1)
  | (vs, None, buf1) =>
      let wrl := field 0 vs in
      match decodeNLRIs buf1 (uint16 wrl) with
      | (wr, Some e, buf2) => (mkBGPUpdate wrl wr 0 None None, Some e, buf2)
      | (wr, None, buf2) =>
          match decode buf2 [2%nat] with
          | (vs', Some e, buf3) =>
              (mkBGPUpdate wrl wr (field 0 vs') None None, Some e, buf3)
          | (vs', None, buf3) =>
              let tpal := field 0 vs' in
              match decodePathAttrs buf3 tpal with
              | (pa, Some e, buf4) => (mkBGPUpdate wrl wr tpal pa None, Some e, buf4)
              | (pa, None, buf4) =>
                  let nlriLen := uint16 (uint16 (uint16 (uint16 l - 4) - uint16 tpal) - uint16 wrl) in
                  if nlriLen >? 0 then
                    match decodeNLRIs buf4 nlriLen with
                    | (nlri, Some e, buf5) =>
                        (mkBGPUpdate wrl wr tpal pa nlri, Some e, buf5)
                    | (nlri, None, buf5) =>
                        (mkBGPUpdate wrl wr tpal pa nlri, None, buf5)
                    end
                  else (mkBGPUpdate wrl wr tpal pa None, None, buf4)
              end
          end
      end
  end.

End Update.

Arguments mkBGPUpdate {NLRI_t PathAttribute_t}.
Arguments WithdrawnRoutesLen {NLRI_t PathAttribute_t}.
Arguments WithdrawnRoutes {NLRI_t PathAttribute_t}.
Arguments TotalPathAttrLen {NLRI_t PathAttribute_t}.
Arguments PathAttributes {NLRI_t PathAttribute_t}.
Arguments NLRI {NLRI_t PathAttribute_t}.
Arguments decodeUpdateMsg {NLRI_t PathAttribute_t}.

End Packet.

(** ** Package rt *)

Module RT.

(** Path types. *)
Definition StaticPathType : Z := 1.
Definition BGPPathType : Z := 2.
Definition OSPFPathType : Z := 3.
Definition ISISPathType : Z := 4.

Section Route.

(** [net.Prefix], [StaticPath] and [BGPPath] are declared in other files.
    The route entry never looks inside a prefix or a static path, and it
    only compares BGP paths as struct values ([*p.BGPPath != *q.BGPPath]),
    which [BGPPath_eq_dec] stands for. *)
Variable Prefix_t : Type.
Variable StaticPath_t : Type.
Variable BGPPath_t : Type.
Variable BGPPath_eq_dec : forall a b : BGPPath_t, {a = b} + {a <> b}.

Record Path : Type := mkPath {
  Type_ : Z;
  StaticPath : option StaticPath_t;
  BGPPath : option BGPPath_t
}.

(** A [*Path]: [None] is [nil]. *)
Definition PathPtr : Type := option Path.

Record Route : Type := mkRoute {
  pfx : option Prefix_t;
  activePaths : list PathPtr;
  paths : list PathPtr
}.

Definition NewRoute (pfx : option Prefix_t) (paths : list PathPtr) : Route :=
  mkRoute pfx [] paths.

Definition Prefix (r : Route) : option Prefix_t := pfx r.

(** [Path.Equal]; [None] is the panic of dereferencing a nil [BGPPath]. *)
Definition Equal (p q : PathPtr) : option bool :=
  match p, q with
  | None, _ => Some false
  | _, None => Some false
  | Some p, Some q =>
      if negb (Type_ p =? Type_ q) then Some false
      else if Type_ p =? BGPPathType then
        match BGPPath p, BGPPath q with
        | Some a, Some b =>
            if BGPPath_eq_dec a b then Some true else Some false
        | _, _ => None
        end
      else Some true
  end.

(** The scan of [removePath]: the index [j] of the first entry equal to
    [remove], counted from [j0], or [-1]. *)
Fixpoint removePath_scan (paths : list PathPtr) (remove : PathPtr) (j0 : Z)
  : option Z :=
  match paths with
  | [] => Some (-1)
  | p :: rest =>
      match Equal p remove with
      | None => None
      | Some true => Some j0
      | Some false => removePath_scan rest remove (j0 + 1)
      end
  end.

(** [copy(dst, src)] writes [min (len dst) (len src)] elements of [src]
    over the front of [dst]. *)
Definition copy {A : Type} (dst src : list A) : list A :=
  firstn (List.length dst) src ++ skipn (List.length src) dst.

(** The contents of [paths] after [copy(paths[i:], paths[i+1:])]: the
    entries behind index [i] move one place to the front, and the last
    place keeps its entry. *)
Definition removePath_shift {A : Type} (paths : list A) (i : nat) : list A :=
  firstn i paths ++ copy (skipn i paths) (skipn (S i) paths).

Definition removePath (paths : list PathPtr) (remove : PathPtr)
  : option (list PathPtr) :=
  match removePath_scan paths remove 0 with
  | None => None
  | Some i =>
      if i <? 0 then Some paths
      else
        Some (firstn (List.length paths - 1)
                (removePath_shift paths (Z.to_nat i)))
  end.

(** The loop of [Route.Remove] over [rm.paths], read as a value: the
    slice of [rm] has a backing array of its own, which the in-place shift
    of [removePath] on [r.paths] does not reach. *)
Fixpoint Remove_loop (ps dels : list PathPtr) : option (list PathPtr) :=
  match dels with
  | [] => Some ps
  | del :: dels' =>
      match removePath ps del with
      | None => None
      | Some ps' => Remove_loop ps' dels'
      end
  end.

Definition Remove (r rm : Route) : option (Route * bool) :=
  match Remove_loop (paths r) (paths rm) with
  | None => None
  | Some ps =>
      Some (mkRoute (pfx r) (activePaths r) ps, (List.length ps =? 0)%nat)
  end.

(** *** [Remove] over a store of backing arrays

    The same loop with the slices as Go has them: a slice is a window
    [arr[0:len]] on a backing array of the store, [removePath] shifts the
    entries of the array in place, and the [range] loop reads
    [rm.paths[k]] from the array of [rm] at iteration [k], [len(rm.paths)]
    being fixed when the loop starts. *)
Record slice : Set := mkSlice { sl_arr : nat; sl_len : nat }.

Definition store : Type := nat -> list PathPtr.

Definition view (h : store) (s : slice) : list PathPtr :=
  firstn (sl_len s) (h (sl_arr s)).

Definition write (h : store) (a : nat) (v : list PathPtr) : store :=
  fun x => if (x =? a)%nat then v else h x.

Definition removePath_store (h : store) (s : slice) (remove : PathPtr)
  : option (store * slice) :=
  match removePath_scan (view h s) remove 0 with
  | None => None
  | Some i =>
      if i <? 0 then Some (h, s)
      else
        Some (write h (sl_arr s)
                (removePath_shift (view h s) (Z.to_nat i)
                   ++ skipn (sl_len s) (h (sl_arr s))),
              mkSlice (sl_arr s) (sl_len s - 1))
  end.

Fixpoint Remove_store_loop (todo k : nat) (h : store) (rs ms : slice)
  : option (store * slice) :=
  match todo with
  | O => Some (h, rs)
  | S todo' =>
      match removePath_store h rs (nth k (h (sl_arr ms)) None) with
      | None => None
      | Some (h', rs') => Remove_store_loop todo' (S k) h' rs' ms
      end
  end.

(** [r.Remove(rm)] where [r.paths] is the slice [rs] and [rm.paths] the
    slice [ms]: the paths of [r] afterwards, and [final]. *)
Definition Remove_store (h : store) (rs ms : slice)
  : option (list PathPtr * bool) :=
  match Remove_store_loop (sl_len ms) 0 h rs ms with
  | None => None
  | Some (h', rs') => Some (view h' rs', (sl_len rs' =? 0)%nat)
  end.

(** [getBestProtocol]; [None] is the panic of reading [p.Type] on a nil
    path. *)
Fixpoint getBestProtocol_loop (paths : list PathPtr) (best : Z) : option Z :=
  match paths with
  | [] => Some best
  | None :: _ => None
  | Some p :: rest =>
      if best =? 0 then getBestProtocol_loop rest (Type_ p)
      else if Type_ p <? best then getBestProtocol_loop rest (Type_ p)
      else getBestProtocol_loop rest best
  end.

Definition getBestProtocol (paths : list PathPtr) : option Z :=
  getBestProtocol_loop paths 0.

(** [staticPathSelection] and [bgpPathSelection] are methods of [Route]
    defined in other files: the route entry is parametric in them. *)
Variable staticPathSelection : Route -> list PathPtr.
Variable bgpPathSelection : Route -> list PathPtr.

Definition bestPaths (r : Route) : option Route :=
  match getBestProtocol (paths r) with
  | None => None
  | Some protocol =>
      let best :=
        if protocol =? StaticPathType then staticPathSelection r
        else if protocol =? BGPPathType then bgpPathSelection r
        else [] in
      Some (mkRoute (pfx r) best (paths r))
  end.

Definition AddPath (r : Route) (p : PathPtr) : option Route :=
  bestPaths (mkRoute (pfx r) (activePaths r) (paths r ++ [p])).

Definition AddPaths (r : Route) (ps : list PathPtr) : option Route :=
  bestPaths
    (mkRoute (pfx r) (activePaths r)
       (fold_left (fun acc p => acc ++ [p]) ps (paths r))).

End Route.

Arguments mkPath {StaticPath_t BGPPath_t}.
Arguments Type_ {StaticPath_t BGPPath_t}.
Arguments StaticPath {StaticPath_t BGPPath_t}.
Arguments BGPPath {StaticPath_t BGPPath_t}.
Arguments mkRoute {Prefix_t StaticPath_t BGPPath_t}.
Arguments pfx {Prefix_t StaticPath_t BGPPath_t}.
Arguments activePaths {Prefix_t StaticPath_t BGPPath_t}.
Arguments paths {Prefix_t StaticPath_t BGPPath_t}.
Arguments NewRoute {Prefix_t StaticPath_t BGPPath_t}.
Arguments Prefix {Prefix_t StaticPath_t BGPPath_t}.
Arguments Equal {StaticPath_t BGPPath_t}.
Arguments removePath_scan {StaticPath_t BGPPath_t}.
Arguments removePath {StaticPath_t BGPPath_t}.
Arguments Remove_loop {StaticPath_t BGPPath_t}.
Arguments Remove {Prefix_t StaticPath_t BGPPath_t}.
Arguments view {StaticPath_t BGPPath_t}.
Arguments write {StaticPath_t BGPPath_t}.
Arguments removePath_store {StaticPath_t BGPPath_t}.
Arguments Remove_store_loop {StaticPath_t BGPPath_t}.
Arguments Remove_store {StaticPath_t BGPPath_t}.
Arguments getBestProtocol_loop {StaticPath_t BGPPath_t}.
Arguments getBestProtocol {StaticPath_t BGPPath_t}.
Arguments bestPaths {Prefix_t StaticPath_t BGPPath_t}.
Arguments AddPath {Prefix_t StaticPath_t BGPPath_t}.
Arguments AddPaths {Prefix_t StaticPath_t BGPPath_t}.

End RT.


(** * Specification-side definitions for the decoder *)

Module PacketSpec.
Import Packet.

(** ** The Notification code/subcode table, in the spec's words *)

Definition code_allowed (code : Z) : bool := (1 <=? code) && (code <=? Cease).

Definition subcode_allowed (code sub : Z) : bool :=
  if code =? MessageHeaderError then
    (1 <=? sub) && (sub <=? BadMessageType) && negb (sub =? 0)
  else if code =? OpenMessageError then
    (1 <=? sub) && (sub <=? UnacceptableHoldTime) && negb (sub =? 0)
    && negb (sub =? DeprecatedOpenMsgError5)
  else if code =? UpdateMessageError then
    (1 <=? sub) && (sub <=? MalformedASPath) && negb (sub =? 0)
    && negb (sub =? DeprecatedUpdateMsgError7)
  else if code =? HoldTimeExpired then sub =? 0
  else if code =? FiniteStateMachineError then sub =? 0
  else if code =? Cease then sub =? 0
  else false.

(** The pairs the table accepts. *)
Definition pair_allowed (code sub : Z) : bool :=
  code_allowed code && subcode_allowed code sub.

(** ** The fields of a 19-byte header *)

Definition header_marker (buf : buffer) : list byte := firstn 16 buf.
Definition header_length (buf : buffer) : Z := be_uint (firstn 2 (skipn 16 buf)).
Definition header_type (buf : buffer) : Z := be_uint (firstn 1 (skipn 18 buf)).

(** ** Identifier ranges *)

Definition ipv4 (a b c d : Z) : Z := a * 2 ^ 24 + b * 2 ^ 16 + c * 2 ^ 8 + d.

(** [id] lies in the prefix [base/len]. *)
Definition in_prefix (id base len : Z) : Prop :=
  Z.shiftr id (32 - len) = Z.shiftr base (32 - len).

Definition reserved_identifier (id : Z) : Prop :=
  in_prefix id (ipv4 0 0 0 0) 8
  \/ in_prefix id (ipv4 127 0 0 0) 8
  \/ in_prefix id (ipv4 224 0 0 0) 4
  \/ id = ipv4 255 255 255 255.

(** ** The NLRI length of an Update, as a mathematical integer *)

Definition nlri_len (body_len total_path_attr_len withdrawn_routes_len : Z) : Z :=
  body_len - 4 - total_path_attr_len - withdrawn_routes_len.

Section ErrorOrigin.

Variable NLRI_t : Type.
Variable PathAttribute_t : Type.
Variable decodeNLRIs : buffer -> Z -> option NLRI_t * option error * buffer.
Variable decodePathAttrs : buffer -> Z -> option PathAttribute_t * option error * buffer.

(** Where an error of the Update decoder can come from: the byte reader,
    or one of the two decoders it calls. *)
Definition error_origin (e : error) : Prop :=
  (exists io, e = Errorf ("Unable to read from buffer: " ++ ioerr_Error io)%string)
  \/ (exists b n x b', decodeNLRIs b n = (x, Some e, b'))
  \/ (exists b n x b', decodePathAttrs b n = (x, Some e, b')).

End ErrorOrigin.

Arguments error_origin {NLRI_t PathAttribute_t}.

(** ** The decoders the Update decoder calls *)

Record Prefix : Set := mkPrefix { address_bytes : list byte; length_bits : Z }.

(** [read_bytes n]: the next [n] bytes, or nothing when fewer remain. *)
Fixpoint read_bytes (n : nat) (buf : buffer) : option (list byte * buffer) :=
  match n with
  | O => Some ([], buf)
  | S n' =>
      match buf with
      | [] => None
      | b :: buf' =>
          match read_bytes n' buf' with
          | None => None
          | Some (bs, rest) => Some (b :: bs, rest)
          end
      end
  end.

(** Modelled from the spec: [decodeNLRIs] is not in [decoder.go].  Within
    a declared byte budget, repeatedly: read [length_bits] (u8); compute
    [byte_count = ceil (length_bits / 8)]; read [byte_count] bytes;
    zero-pad to the four bytes of an IPv4 address; emit a prefix.  Budget
    exhaustion mid-prefix is malformed. *)
Fixpoint decodeNLRIs_loop (fuel : nat) (buf : buffer) (budget : Z) (acc : list Prefix)
  : list Prefix * option error * buffer :=
  match fuel with
  | O => (rev_append acc [], None, buf)
  | S fuel' =>
      if budget <=? 0 then (rev_append acc [], None, buf)
      else
        match buf with
        | [] => (rev_append acc [], Some (Errorf "Unable to decode NLRI"), buf)
        | lb :: buf1 =>
            let byte_count := (byteZ lb + 7) / 8 in
            let n := Z.to_nat byte_count in
            if 1 + byte_count >? budget then
              (rev_append acc [], Some (Errorf "Unable to decode NLRI"), buf1)
            else
              match read_bytes n buf1 with
              | None =>
                  (rev_append acc [], Some (Errorf "Unable to decode NLRI"), buf1)
              | Some (bs, buf2) =>
                  decodeNLRIs_loop fuel' buf2 (budget - 1 - byte_count)
                    (mkPrefix (bs ++ repeat x00 (4 - n)) (byteZ lb) :: acc)
              end
        end
  end.

Definition decodeNLRIs (buf : buffer) (length : Z)
  : option (list Prefix) * option error * buffer :=
  match decodeNLRIs_loop (Z.to_nat length) buf length [] with
  | ([], err, buf') => (None, err, buf')
  | (ps, err, buf') => (Some ps, err, buf')
  end.

(** Modelled from the spec: [decodePathAttrs] is not in [decoder.go].  For
    each attribute within the budget: read the flags (u8) and decode the
    four bits (with [decodePathAttrFlags], which is in the sources); read
    [type_code] (u8); read [length] (u16 when [extended_length], else
    u8); read [length] bytes of value.  The value is kept as the raw byte
    run. *)
Fixpoint decodePathAttrs_loop (fuel : nat) (buf : buffer) (budget : Z)
    (acc : list PathAttribute)
  : list PathAttribute * option error * buffer :=
  match fuel with
  | O => (rev_append acc [], None, buf)
  | S fuel' =>
      if budget <=? 0 then (rev_append acc [], None, buf)
      else
        match decodePathAttrFlags buf (mkPathAttribute false false false false 0 0 []) with
        | (_, Some e, buf1) => (rev_append acc [], Some e, buf1)
        | (pa, None, buf1) =>
            let lw := if ExtendedLength pa then 2%nat else 1%nat in
            match decode buf1 [1%nat; lw] with
            | (_, Some e, buf2) => (rev_append acc [], Some e, buf2)
            | (vs, None, buf2) =>
                let len := field 1 vs in
                match read_bytes (Z.to_nat len) buf2 with
                | None =>
                    (rev_append acc [],
                     Some (Errorf "Unable to decode path attribute"), buf2)
                | Some (value, buf3) =>
                    decodePathAttrs_loop fuel' buf3
                      (budget - 2 - Z.of_nat lw - len)
                      (mkPathAttribute (Optional pa) (Transitive pa)
                         (Partial pa) (ExtendedLength pa)
                         (field 0 vs) len value :: acc)
                end
            end
        end
  end.

Definition decodePathAttrs (buf : buffer) (length : Z)
  : option (list PathAttribute) * option error * buffer :=
  match decodePathAttrs_loop (Z.to_nat length) buf length [] with
  | ([], err, buf') => (None, err, buf')
  | (pas, err, buf') => (Some pas, err, buf')
  end.

(** ** Concrete inputs *)

(** A Keepalive message: sixteen [0xFF], length 19, type 4. *)
Definition keepalive_bytes : buffer := repeat xff 16 ++ [x00; x13; x04].

(** An Update body that declares 65532 bytes of withdrawn routes (each
    zero byte withdraws a [/0] prefix) and no path attribute. *)
Definition long_withdrawal_body : buffer :=
  [xff; xfc] ++ repeat x00 (Z.to_nat 65532) ++ [x00; x00].

(** An Update body of eight bytes: nothing withdrawn, no path attribute,
    and the prefix 10.0.0.0/24 as NLRI. *)
Definition small_update_body : buffer :=
  [x00; x00; x00; x00; x18; x0a; x00; x00].

End PacketSpec.

(** * Specification-side definitions for the route entry *)

Module RTSpec.
Import RT.

Section PathSpec.

Variable StaticPath_t : Type.
Variable BGPPath_t : Type.
Variable BGPPath_eq_dec : forall a b : BGPPath_t, {a = b} + {a <> b}.

(** A path pointer [Equal] can be called on without a panic: a BGP path
    carries its BGP payload.  (A nil pointer is fine: [Equal] tests for
    it.) *)
Definition wf_path (q : PathPtr StaticPath_t BGPPath_t) : Prop :=
  match q with
  | None => True
  | Some p => Type_ p = BGPPathType -> BGPPath p <> None
  end.

(** A path pointer the selector can read: not nil, with one of the four
    path types. *)
Definition typed_path (q : PathPtr StaticPath_t BGPPath_t) : Prop :=
  exists p, q = Some p /\ 1 <= Type_ p <= 4.

Definition is_static (q : PathPtr StaticPath_t BGPPath_t) : Prop :=
  exists p, q = Some p /\ Type_ p = StaticPathType.

Definition is_bgp (q : PathPtr StaticPath_t BGPPath_t) : Prop :=
  exists p, q = Some p /\ Type_ p = BGPPathType.

(** Any path pointer that is not nil: its [Type] field is a [uint8], one
    of the four path types or not. *)
Definition uint8_path (q : PathPtr StaticPath_t BGPPath_t) : Prop :=
  exists p, q = Some p /\ 0 <= Type_ p < 256.

(** [Path.Equal] as a total test ([false] where it would panic). *)
Definition equalb (p q : PathPtr StaticPath_t BGPPath_t) : bool :=
  match Equal BGPPath_eq_dec p q with
  | Some b => b
  | None => false
  end.

(** "Remove the first entry equal to [del]", in the spec's words. *)
Fixpoint remove_first (del : PathPtr StaticPath_t BGPPath_t)
    (l : list (PathPtr StaticPath_t BGPPath_t))
  : list (PathPtr StaticPath_t BGPPath_t) :=
  match l with
  | [] => []
  | x :: l' => if equalb x del then l' else x :: remove_first del l'
  end.

(** The position of the first entry equal to [del], if any. *)
Fixpoint index_of (del : PathPtr StaticPath_t BGPPath_t)
    (l : list (PathPtr StaticPath_t BGPPath_t)) : option nat :=
  match l with
  | [] => None
  | x :: l' => if equalb x del then Some O else option_map S (index_of del l')
  end.

(** "For each path of [dels], remove the first entry equal to it." *)
Definition remove_all_first (dels l : list (PathPtr StaticPath_t BGPPath_t))
  : list (PathPtr StaticPath_t BGPPath_t) :=
  fold_left (fun acc del => remove_first del acc) dels l.

(** The smallest type ordinal among [best] and the paths of [l]. *)
Definition min_type (l : list (PathPtr StaticPath_t BGPPath_t)) (best : Z) : Z :=
  fold_left (fun acc q => match q with
                          | Some p => Z.min acc (Type_ p)
                          | None => acc
                          end) l best.

(** Structural equality of two paths, in the spec's words: the same tag
    and the same payload. *)
Definition same_path (p q : Path StaticPath_t BGPPath_t) : Prop :=
  Type_ p = Type_ q /\ StaticPath p = StaticPath q /\ BGPPath p = BGPPath q.

End PathSpec.

Arguments wf_path {StaticPath_t BGPPath_t}.
Arguments typed_path {StaticPath_t BGPPath_t}.
Arguments is_static {StaticPath_t BGPPath_t}.
Arguments is_bgp {StaticPath_t BGPPath_t}.
Arguments uint8_path {StaticPath_t BGPPath_t}.
Arguments equalb {StaticPath_t BGPPath_t}.
Arguments remove_first {StaticPath_t BGPPath_t}.
Arguments index_of {StaticPath_t BGPPath_t}.
Arguments remove_all_first {StaticPath_t BGPPath_t}.
Arguments min_type {StaticPath_t BGPPath_t}.
Arguments same_path {StaticPath_t BGPPath_t}.

(** Modelled from the spec: [staticPathSelection] is not in the file of
    the route entry.  "Static: all static paths are active." *)
Definition staticPathSelection {Prefix_t StaticPath_t BGPPath_t : Type}
    (r : Route Prefix_t StaticPath_t BGPPath_t)
  : list (PathPtr StaticPath_t BGPPath_t) :=
  filter (fun q => match q with
                   | Some p => Type_ p =? StaticPathType
                   | None => false
                   end) (paths r).

(** ** A concrete route table

    Prefixes and next hops are 32-bit addresses; a BGP path is an opaque
    comparable value.  The routes below hold static paths only, so that
    [bgpPathSelection] is never called on them: [no_bgp_selection] stands
    for it. *)
Definition ExPath : Type := Path Z Z.
Definition ExRoute : Type := Route Z Z Z.

Definition static_path (next_hop : Z) : PathPtr Z Z :=
  Some (mkPath StaticPathType (Some next_hop) None).

Definition bgp_path (a : Z) : PathPtr Z Z :=
  Some (mkPath BGPPathType None (Some a)).

Definition ospf_path : PathPtr Z Z := Some (mkPath OSPFPathType None None).

Definition isis_path : PathPtr Z Z := Some (mkPath ISISPathType None None).

(** A path whose type is none of the four (the zero value of [Path]). *)
Definition untyped_path : PathPtr Z Z := Some (mkPath 0 None None).

Definition no_bgp_selection (r : ExRoute) : list (PathPtr Z Z) := [].

(** For a route that holds a single BGP path, where the decision process
    has nothing to decide, [bgp_paths_selection] stands for
    [bgpPathSelection]: it returns the BGP paths of the route. *)
Definition bgp_paths_selection (r : ExRoute) : list (PathPtr Z Z) :=
  filter (fun q => match q with
                   | Some p => Type_ p =? BGPPathType
                   | None => false
                   end) (paths r).

Definition ex_Equal : PathPtr Z Z -> PathPtr Z Z -> option bool :=
  Equal Z.eq_dec.

Definition ex_Remove : ExRoute -> ExRoute -> option (ExRoute * bool) :=
  Remove Z.eq_dec.

Definition ex_bestPaths : ExRoute -> option ExRoute :=
  bestPaths staticPathSelection no_bgp_selection.

Definition ex_AddPath : ExRoute -> PathPtr Z Z -> option ExRoute :=
  AddPath staticPathSelection no_bgp_selection.

(** 10.0.0.0 as a prefix pointer. *)
Definition ex_pfx : option Z := Some 167772160.

(** A store with one backing array, number 0, that holds three distinct
    BGP paths. *)
Definition three_paths_store : store Z Z :=
  fun a => match a with
           | O => [bgp_path 1; bgp_path 2; bgp_path 3]
           | S _ => []
           end.

End RTSpec.

(** * The rest of the decoder: Open bodies, the body dispatch, Decode *)

Module PacketBody.
Import Packet.

(** ** Open *)

(** [_decodeOpenMsg]: the five fixed fields ([Version] u8, [AS] u16,
    [HoldTime] u16, [BGPIdentifier] u32, [OptParmLen] u8), then
    [validateOpen].  The result is an [interface{}]: [None] is the nil
    interface the function returns when validation fails. *)
Definition _decodeOpenMsg (buf : buffer)
  : option BGPOpen.t * option error * buffer :=
  match decode buf [1%nat; 2%nat; 2%nat; 4%nat; 1%nat] with
  | (vs, Some e, buf') =>
      (Some (BGPOpen.mk (field 0 vs) (field 1 vs) (field 2 vs) (field 3 vs)
               (field 4 vs)),
       Some e, buf')
  | (vs, None, buf') =>
      let msg := BGPOpen.mk (field 0 vs) (field 1 vs) (field 2 vs) (field 3 vs)
                   (field 4 vs) in
      match validateOpen msg with
      | Some e => (None, Some e, buf')
      | None => (Some msg, None, buf')
      end
  end.

(** [decodeOpenMsg]: the type assertion of [msg] to a [BGPOpen] pointer
    panics on the nil interface; the outer [None] is that panic. *)
Definition decodeOpenMsg (buf : buffer)
  : option (BGPOpen.t * option error * buffer) :=
  match _decodeOpenMsg buf with
  | (Some msg, err, buf') => Some (msg, err, buf')
  | (None, _, _) => None
  end.

(** ** The body dispatch and Decode *)

Section Decode.

Variable NLRI_t : Type.
Variable PathAttribute_t : Type.
Variable decodeNLRIs : buffer -> Z -> option NLRI_t * option error * buffer.
Variable decodePathAttrs : buffer -> Z -> option PathAttribute_t * option error * buffer.

(** The [Error()] method of [BGPError] is declared with the type, outside
    [decoder.go]. *)
Variable BGPError_Error : BGPError.t -> string.

(** What a message body ([interface{}]) can hold. *)
Inductive Body : Type :=
| BodyOpen (m : BGPOpen.t)
| BodyUpdate (m : BGPUpdate NLRI_t PathAttribute_t)
| BodyNotification (m : BGPNotification.t).

Record BGPMessage : Type := mkBGPMessage {
  Header : BGPHeader.t;
  Body_ : option Body
}.

(** [%v] of an error. *)
Definition error_Error (e : error) : string :=
  match e with
  | Errorf s => s
  | ErrBGP b => BGPError_Error b
  end.

(** [decodeMsgBody]; the outer [None] is the panic of [decodeOpenMsg]. *)
Definition decodeMsgBody (buf : buffer) (msgType l : Z)
  : option (option Body * option error * buffer) :=
  if msgType =? OpenMsg then
    match decodeOpenMsg buf with
    | None => None
    | Some (m, err, buf') => Some (Some (BodyOpen m), err, buf')
    end
  else if msgType =? UpdateMsg then
    let '(m, err, buf') := decodeUpdateMsg decodeNLRIs decodePathAttrs buf l in
    Some (Some (BodyUpdate m), err, buf')
  else if msgType =? KeepaliveMsg then Some (None, None, buf)
  else if msgType =? NotificationMsg then
    let '(m, err, buf') := decodeNotificationMsg buf in
    Some (Some (BodyNotification m), err, buf')
  else
    Some (None, Some (Errorf ("Unknown message type: " ++ fmt_d msgType)%string), buf).

(** [Decode]; the outer [None] is a panic. *)
Definition Decode (buf : buffer)
  : option (option BGPMessage * option error * buffer) :=
  match decodeHeader buf with
  | (_, Some e, buf1) =>
      Some (None,
            Some (Errorf ("Failed to decode header: " ++ error_Error e)%string),
            buf1)
  | (None, None, _) => None
  | (Some hdr, None, buf1) =>
      match decodeMsgBody buf1 (BGPHeader.Type_ hdr)
              (uint16 (BGPHeader.Length hdr - MinLen)) with
      | None => None
      | Some (_, Some e, buf2) =>
          Some (None,
                Some (Errorf ("Failed to decode message: " ++ error_Error e)%string),
                buf2)
      | Some (body, None, buf2) =>
          Some (Some (mkBGPMessage hdr body), None, buf2)
      end
  end.

End Decode.

Arguments BodyOpen {NLRI_t PathAttribute_t}.
Arguments BodyUpdate {NLRI_t PathAttribute_t}.
Arguments BodyNotification {NLRI_t PathAttribute_t}.
Arguments mkBGPMessage {NLRI_t PathAttribute_t}.
Arguments Header {NLRI_t PathAttribute_t}.
Arguments Body_ {NLRI_t PathAttribute_t}.
Arguments decodeMsgBody {NLRI_t PathAttribute_t}.
Arguments Decode {NLRI_t PathAttribute_t}.

End PacketBody.

(** * Specification-side definitions for the further properties *)

Module MoreSpec.
Import Packet.

(** The consecutive runs of bytes that fields of the given widths
    occupy. *)
Fixpoint chunks (fields : list nat) (buf : buffer) : list (list byte) :=
  match fields with
  | [] => []
  | w :: fields' => firstn w buf :: chunks fields' (skipn w buf)
  end.

(** A flag as the bit it stands for. *)
Definition bit (b : bool) (weight : Z) : Z := if b then weight else 0.

(** The flag byte that four flags make (low four bits zero). *)
Definition flags_byte (pa : PathAttribute) : Z :=
  bit (Optional pa) 128 + bit (Transitive pa) 64 + bit (Partial pa) 32
  + bit (ExtendedLength pa) 16.

(** The version byte and the identifier of an Open body. *)
Definition open_version (body : buffer) : Z := byteZ (nth 0 body x00).

Definition open_identifier (body : buffer) : Z := be_uint (firstn 4 (skipn 5 body)).

(** A decoder consumes its budget: what it leaves is the buffer less
    exactly [n] bytes. *)
Definition consumes_budget {A : Type}
    (d : buffer -> Z -> option A * option error * buffer) : Prop :=
  forall buf n x rest,
    d buf n = (x, None, rest) ->
    exists used, buf = used ++ rest /\ Z.of_nat (List.length used) = n.

(** A decoder that skips its budget and decodes nothing. *)
Definition skip_decoder (buf : buffer) (n : Z) : option unit * option error * buffer :=
  if (0 <=? n) && (Z.to_nat n <=? List.length buf)%nat
  then (None, None, skipn (Z.to_nat n) buf)
  else (None, Some (Errorf "short buffer"), buf).

End MoreSpec.

Module MoreRTSpec.
Import RT.

Section Spec.

Variable Prefix_t : Type.
Variable StaticPath_t : Type.
Variable BGPPath_t : Type.

Definition is_nil (q : PathPtr StaticPath_t BGPPath_t) : bool :=
  match q with
  | None => true
  | Some _ => false
  end.

Variable staticPathSelection : Route Prefix_t StaticPath_t BGPPath_t
                               -> list (PathPtr StaticPath_t BGPPath_t).
Variable bgpPathSelection : Route Prefix_t StaticPath_t BGPPath_t
                            -> list (PathPtr StaticPath_t BGPPath_t).

(** [AddPath] called for each path of [ps] in turn, a panic ending the
    sequence. *)
Definition AddPath_each (r : Route Prefix_t StaticPath_t BGPPath_t)
    (ps : list (PathPtr StaticPath_t BGPPath_t))
  : option (Route Prefix_t StaticPath_t BGPPath_t) :=
  fold_left (fun acc p => match acc with
                          | Some r' => AddPath staticPathSelection bgpPathSelection r' p
                          | None => None
                          end) ps (Some r).

(** A selection method reads the prefix and the paths of the route
    only. *)
Definition reads_paths_only
    (sel : Route Prefix_t StaticPath_t BGPPath_t
           -> list (PathPtr StaticPath_t BGPPath_t)) : Prop :=
  forall r r', pfx r = pfx r' -> paths r = paths r' -> sel r = sel r'.

End Spec.

Arguments is_nil {StaticPath_t BGPPath_t}.
Arguments AddPath_each {Prefix_t StaticPath_t BGPPath_t}.
Arguments reads_paths_only {Prefix_t StaticPath_t BGPPath_t}.

End MoreRTSpec.
(** * Properties of the decoder *)

Module PacketFacts.
Import Packet PacketSpec.

(** ** Reader lemmas *)

Lemma decode_header_fields (a b c : byte) (rest : buffer) :
  decode (a :: b :: c :: rest) [2%nat; 1%nat]
  = ([be_uint [a; b]; byteZ c], None, rest).
Proof. reflexivity. Qed.

Lemma byteZ_range (b : byte) : 0 <= byteZ b <= 255.
Proof.
  unfold byteZ. pose proof (Byte.to_N_bounded b). lia.
Qed.

Lemma existsb_not_ff (marker : list byte) :
  existsb (fun b => negb (Byte.eqb b xff)) marker = true
  <-> exists b, In b marker /\ b <> xff.
Proof.
  rewrite existsb_exists. split; intros [b [Hin Hb]]; exists b; split; auto.
  - intros ->. discriminate Hb.
  - destruct (Byte.eqb b xff) eqn:E; [|reflexivity].
    apply Byte.byte_dec_bl in E. contradiction.
Qed.

(** The header decoder on an input that holds at least 19 bytes, as one
    equation. *)
Lemma decodeHeader_eq (marker : list byte) (a b c : byte) (rest : buffer) :
  List.length marker = 16%nat ->
  decodeHeader (marker ++ a :: b :: c :: rest) =
    let hdr := BGPHeader.mk (be_uint [a; b]) (byteZ c) in
    if existsb (fun b => negb (Byte.eqb b xff)) marker then
      (None,
       Some (ErrBGP (BGPError.mk MessageHeaderError ConnectionNotSync
                       ("Invalid marker: " ++ fmt_bytes marker)%string)),
       a :: b :: c :: rest)
    else if (be_uint [a; b] <? MinLen) || (be_uint [a; b] >? MaxLen) then
      (Some hdr,
       Some (ErrBGP (BGPError.mk MessageHeaderError BadMessageLength
                       ("Invalid length in BGP header: " ++ fmt_d (be_uint [a; b]))%string)),
       rest)
    else if (byteZ c >? KeepaliveMsg) || (byteZ c =? 0) then
      (Some hdr,
       Some (ErrBGP (BGPError.mk MessageHeaderError BadMessageType
                       ("Invalid message type: " ++ fmt_d (byteZ c))%string)),
       rest)
    else (Some hdr, None, rest).
Proof.
  intros Hlen. unfold decodeHeader, buf_Read.
  assert (Hf : firstn MarkerLen (marker ++ a :: b :: c :: rest) = marker).
  { unfold MarkerLen. rewrite <- Hlen. rewrite firstn_app, firstn_all.
    rewrite Nat.sub_diag. simpl. apply app_nil_r. }
  assert (Hs : skipn MarkerLen (marker ++ a :: b :: c :: rest) = a :: b :: c :: rest).
  { unfold MarkerLen. rewrite <- Hlen. rewrite skipn_app, skipn_all.
    rewrite Nat.sub_diag. reflexivity. }
  destruct (marker ++ a :: b :: c :: rest) eqn:E.
  - destruct marker; discriminate.
  - rewrite Hf, Hs, Hlen. simpl negb. cbv iota.
    destruct (existsb _ marker); [reflexivity|].
    rewrite decode_header_fields. reflexivity.
Qed.

Lemma split_19 (buf : buffer) :
  List.length buf = 19%nat ->
  exists marker a b c,
    buf = marker ++ [a; b; c] /\ List.length marker = 16%nat.
Proof.
  intros H. exists (firstn 16 buf).
  assert (Hs : List.length (skipn 16 buf) = 3%nat) by (rewrite length_skipn; lia).
  destruct (skipn 16 buf) as [|a [|b [|c [|d t]]]] eqn:E; try discriminate Hs.
  exists a, b, c. split.
  - rewrite <- E. symmetry. apply firstn_skipn.
  - rewrite length_firstn. lia.
Qed.

Lemma header_fields (marker : list byte) (a b c : byte) :
  List.length marker = 16%nat ->
  header_marker (marker ++ [a; b; c]) = marker
  /\ header_length (marker ++ [a; b; c]) = be_uint [a; b]
  /\ header_type (marker ++ [a; b; c]) = byteZ c
  /\ skipn 16 (marker ++ [a; b; c]) = [a; b; c].
Proof.
  intros H. unfold header_marker, header_length, header_type.
  assert (H16 : skipn 16 (marker ++ [a; b; c]) = [a; b; c]).
  { rewrite <- H, skipn_app, skipn_all, Nat.sub_diag. reflexivity. }
  assert (H18 : skipn 18 (marker ++ [a; b; c]) = [c]).
  { change 18%nat with (2 + 16)%nat. rewrite <- skipn_skipn, H16. reflexivity. }
  rewrite H16, H18. repeat split.
  rewrite <- H, firstn_app, firstn_all, Nat.sub_diag. simpl. apply app_nil_r.
Qed.

(** C7.  On every 19-byte input the header decoder fails with
    MessageHeaderError/ConnectionNotSync when one of the sixteen marker
    bytes is not [0xFF]; with a valid marker it fails with
    MessageHeaderError/BadMessageLength when the length field is below 19
    or above 4096, then with MessageHeaderError/BadMessageType when the
    type field is 0 or above 4, and otherwise returns the header
    [(length, type)] with no error. *)
Theorem decodeHeader_19_bytes (buf : buffer) :
  List.length buf = 19%nat ->
  let marker := header_marker buf in
  let len := header_length buf in
  let ty := header_type buf in
  ((exists b, In b marker /\ b <> xff) ->
   exists s,
     decodeHeader buf
     = (None,
        Some (ErrBGP (BGPError.mk MessageHeaderError ConnectionNotSync s)),
        skipn 16 buf))
  /\ ((forall b, In b marker -> b = xff) ->
      (len < 19 \/ 4096 < len ->
       exists s,
         decodeHeader buf
         = (Some (BGPHeader.mk len ty),
            Some (ErrBGP (BGPError.mk MessageHeaderError BadMessageLength s)),
            []))
      /\ (19 <= len <= 4096 -> ty = 0 \/ 4 < ty ->
          exists s,
            decodeHeader buf
            = (Some (BGPHeader.mk len ty),
               Some (ErrBGP (BGPError.mk MessageHeaderError BadMessageType s)),
               []))
      /\ (19 <= len <= 4096 -> 1 <= ty <= 4 ->
          decodeHeader buf = (Some (BGPHeader.mk len ty), None, []))).
Proof.
  intros Hlen.
  destruct (split_19 buf Hlen) as (marker & a & b & c & -> & Hm).
  destruct (header_fields marker a b c Hm) as (-> & -> & -> & ->).
  cbv zeta. rewrite (decodeHeader_eq marker a b c [] Hm). cbv zeta.
  unfold MinLen, MaxLen, KeepaliveMsg.
  split.
  - intros Hex. apply existsb_not_ff in Hex. rewrite Hex. eauto.
  - intros Hall.
    assert (Hno : existsb (fun b => negb (Byte.eqb b xff)) marker = false).
    { destruct (existsb _ marker) eqn:E; [|reflexivity].
      apply existsb_not_ff in E. destruct E as (x & Hin & Hx).
      elim Hx. auto. }
    rewrite Hno. repeat split.
    + intros Hbad.
      assert (E : (be_uint [a; b] <? 19) || (be_uint [a; b] >? 4096) = true).
      { apply orb_true_iff. rewrite Z.ltb_lt, Z.gtb_ltb, Z.ltb_lt. exact Hbad. }
      rewrite E. eauto.
    + intros Hok Hty.
      assert (E : (be_uint [a; b] <? 19) || (be_uint [a; b] >? 4096) = false).
      { apply orb_false_iff. rewrite Z.ltb_ge, Z.gtb_ltb, Z.ltb_ge. lia. }
      assert (E' : (byteZ c >? 4) || (byteZ c =? 0) = true).
      { apply orb_true_iff. rewrite Z.gtb_ltb, Z.ltb_lt, Z.eqb_eq. lia. }
      rewrite E, E'. eauto.
    + intros Hok Hty.
      assert (E : (be_uint [a; b] <? 19) || (be_uint [a; b] >? 4096) = false).
      { apply orb_false_iff. rewrite Z.ltb_ge, Z.gtb_ltb, Z.ltb_ge. lia. }
      assert (E' : (byteZ c >? 4) || (byteZ c =? 0) = false).
      { apply orb_false_iff. rewrite Z.gtb_ltb, Z.ltb_ge, Z.eqb_neq. lia. }
      rewrite E, E'. reflexivity.
Qed.

(** The Keepalive message decodes to the header (19, 4). *)
Lemma decodeHeader_19_bytes_keepalive :
  decodeHeader keepalive_bytes = (Some (BGPHeader.mk 19 4), None, []).
Proof.
  pose proof (decodeHeader_19_bytes keepalive_bytes eq_refl) as H.
  cbv zeta in H. destruct H as [_ H].
  assert (Hall : forall b, In b (header_marker keepalive_bytes) -> b = xff).
  { intros b Hb. change (header_marker keepalive_bytes) with (repeat xff 16) in Hb.
    apply repeat_spec in Hb. exact Hb. }
  destruct (H Hall) as (_ & _ & Hok).
  apply Hok; vm_compute; split; discriminate.
Defined.

(** ** Notification *)

Lemma decode_two_bytes (c s : byte) (rest : buffer) :
  decode (c :: s :: rest) [1%nat; 1%nat] = ([byteZ c; byteZ s], None, rest).
Proof. reflexivity. Qed.

Ltac split_tests :=
  repeat match goal with
    | |- context [?a =? ?b] => destruct (Z.eqb_spec a b); subst
    | |- context [?a >? ?b] => rewrite (Z.gtb_ltb a b); destruct (Z.ltb_spec b a)
    | |- context [?a <=? ?b] => destruct (Z.leb_spec a b)
    end.

(** The decoder on a body of at least two bytes, for arbitrary field
    values. *)
Lemma notification_outcome (code sub : Z) :
  0 <= code <= 255 -> 0 <= sub <= 255 ->
  let msg := BGPNotification.mk code sub in
  (if code >? Cease then
     (msg, Some (Errorf ("Invalid error code: " ++ fmt_d sub)%string))
   else if code =? MessageHeaderError then
     if (sub >? BadMessageType) || (sub =? 0) then invalidErrCode msg else (msg, None)
   else if code =? OpenMessageError then
     if (sub >? UnacceptableHoldTime) || (sub =? 0) || (sub =? DeprecatedOpenMsgError5)
     then invalidErrCode msg else (msg, None)
   else if code =? UpdateMessageError then
     if (sub >? MalformedASPath) || (sub =? 0) || (sub =? DeprecatedUpdateMsgError7)
     then invalidErrCode msg else (msg, None)
   else if code =? HoldTimeExpired then
     if negb (sub =? 0) then invalidErrCode msg else (msg, None)
   else if code =? FiniteStateMachineError then
     if negb (sub =? 0) then invalidErrCode msg else (msg, None)
   else if code =? Cease then
     if negb (sub =? 0) then invalidErrCode msg else (msg, None)
   else invalidErrCode msg)
  = (msg,
     if pair_allowed code sub then None
     else if code >? Cease then
       Some (Errorf ("Invalid error code: " ++ fmt_d sub)%string)
     else snd (invalidErrCode msg)).
Proof.
  intros Hc Hs. cbv zeta.
  unfold pair_allowed, code_allowed, subcode_allowed, invalidErrCode.
  unfold Cease, MessageHeaderError, OpenMessageError, UpdateMessageError,
    HoldTimeExpired, FiniteStateMachineError, BadMessageType,
    UnacceptableHoldTime, DeprecatedOpenMsgError5, MalformedASPath,
    DeprecatedUpdateMsgError7.
  cbn [BGPNotification.ErrorCode BGPNotification.ErrorSubcode snd].
  split_tests; cbn [andb orb negb]; try reflexivity; try lia.
Qed.

(** C6 (amended).  On a body [c :: s :: rest] the Notification decoder
    reads [error_code = c] and [error_subcode = s], always consumes these
    two bytes and returns the decoded message.  It returns no error
    exactly for the pairs of the code/subcode table.  A code above Cease
    is reported by the invalid-error-code diagnostic; every other
    violation (code 0, or a subcode the table excludes) is reported by the
    invalid-subcode diagnostic of [invalidErrCode]. *)
Theorem decodeNotificationMsg_table (c s : byte) (rest : buffer) :
  let code := byteZ c in
  let sub := byteZ s in
  let msg := BGPNotification.mk code sub in
  decodeNotificationMsg (c :: s :: rest)
  = (msg,
     if pair_allowed code sub then None
     else if code >? Cease then
       Some (Errorf ("Invalid error code: " ++ fmt_d sub)%string)
     else snd (invalidErrCode msg),
     rest).
Proof.
  cbv zeta. unfold decodeNotificationMsg. rewrite decode_two_bytes.
  unfold field. cbn [nth]. cbv zeta.
  cbn [BGPNotification.ErrorCode BGPNotification.ErrorSubcode].
  pose proof (notification_outcome (byteZ c) (byteZ s)
                (byteZ_range c) (byteZ_range s)) as H.
  cbv zeta in H. rewrite <- H.
  repeat match goal with
    | |- context [if ?t then _ else _] => destruct t
    end; reflexivity.
Qed.

(** C6 (as stated) fails on the pair (7, 0): the code is outside
    [1..=Cease], and what the decoder reports is not the invalid-subcode
    diagnostic. *)
Lemma decodeNotificationMsg_code_7 :
  decodeNotificationMsg [x07; x00]
  = (BGPNotification.mk 7 0, Some (Errorf "Invalid error code: 0"), [])
  /\ Some (Errorf "Invalid error code: 0")
     <> snd (invalidErrCode (BGPNotification.mk 7 0)).
Proof.
  split; [reflexivity | vm_compute; discriminate].
Qed.

(** ** Open: the BGP identifier *)

(** The multicast test, on one byte: the high nibble is [0xE]. *)
Lemma land_240 (b : Z) :
  0 <= b < 256 -> (Z.land b 240 =? 224) = (224 <=? b) && (b <? 240).
Proof.
  intros Hb.
  assert (H : forallb (fun n => Bool.eqb (Z.land n 240 =? 224) ((224 <=? n) && (n <? 240)))
                (map Z.of_nat (seq 0 256)) = true) by (vm_compute; reflexivity).
  rewrite forallb_forall in H.
  apply Bool.eqb_prop, H, in_map_iff.
  exists (Z.to_nat b). split; [lia | apply in_seq; lia].
Qed.

Lemma Uint32Byte_bytes (id : Z) :
  0 <= id < 2 ^ 32 ->
  exists b0 b1 b2 b3,
    Uint32Byte id = [b0; b1; b2; b3]
    /\ 0 <= b0 < 256 /\ 0 <= b1 < 256 /\ 0 <= b2 < 256 /\ 0 <= b3 < 256
    /\ id = ipv4 b0 b1 b2 b3.
Proof.
  intros Hid. unfold Uint32Byte, ipv4.
  rewrite !Z.shiftr_div_pow2 by lia.
  exists ((id / 2 ^ 24) mod 256), ((id / 2 ^ 16) mod 256),
    ((id / 2 ^ 8) mod 256), (id mod 256).
  split; [reflexivity|].
  change (2 ^ 32) with 4294967296 in Hid.
  change (2 ^ 24) with 16777216. change (2 ^ 16) with 65536.
  change (2 ^ 8) with 256.
  repeat split; try (apply Z.mod_pos_bound; lia).
  Z.div_mod_to_equations. lia.
Qed.

Lemma reserved_identifier_bytes (b0 b1 b2 b3 : Z) :
  0 <= b0 < 256 -> 0 <= b1 < 256 -> 0 <= b2 < 256 -> 0 <= b3 < 256 ->
  reserved_identifier (ipv4 b0 b1 b2 b3)
  <-> (b0 = 0 \/ b0 = 127 \/ 224 <= b0 < 240
       \/ (b0 = 255 /\ b1 = 255 /\ b2 = 255 /\ b3 = 255)).
Proof.
  intros H0 H1 H2 H3. unfold reserved_identifier, in_prefix, ipv4.
  rewrite !Z.shiftr_div_pow2 by lia.
  change (2 ^ (32 - 8)) with 16777216. change (2 ^ (32 - 4)) with 268435456.
  change (2 ^ 24) with 16777216. change (2 ^ 16) with 65536.
  change (2 ^ 8) with 256.
  split.
  - intros [H | [H | [H | H]]]; revert H; Z.div_mod_to_equations; lia.
  - intros [H | [H | [H | H]]].
    + left. Z.div_mod_to_equations. lia.
    + right; left. Z.div_mod_to_equations. lia.
    + right; right; left. Z.div_mod_to_equations. lia.
    + right; right; right. lia.
Qed.

(** The identifiers [isValidIdentifier] refuses are the reserved ones. *)
Lemma isValidIdentifier_false_iff (id : Z) :
  0 <= id < 2 ^ 32 ->
  isValidIdentifier id = false <-> reserved_identifier id.
Proof.
  intros Hid.
  destruct (Uint32Byte_bytes id Hid)
    as (b0 & b1 & b2 & b3 & Hb & H0 & H1 & H2 & H3 & ->).
  rewrite (reserved_identifier_bytes b0 b1 b2 b3 H0 H1 H2 H3).
  unfold isValidIdentifier, IsLoopback, IsMulticast. rewrite Hb.
  cbn [nth]. rewrite (land_240 b0 H0).
  destruct (Z.eqb_spec b0 127).
  { split; [intros _; lia | reflexivity]. }
  destruct (Z.leb_spec 224 b0), (Z.ltb_spec b0 240); cbn [andb];
    try (split; [intros _; lia | reflexivity]).
  all: destruct (Z.eqb_spec b0 0); try (split; [intros _; lia | reflexivity]).
  all: destruct (Z.eqb_spec b0 255), (Z.eqb_spec b1 255),
         (Z.eqb_spec b2 255), (Z.eqb_spec b3 255); cbn [andb];
    (split; [try discriminate; intros _; lia | try reflexivity; lia]).
Qed.

(** C8.  For every 32-bit identifier, [isValidIdentifier] refuses it
    exactly when, read as an IPv4 address, it lies in 0.0.0.0/8,
    127.0.0.0/8 or 224.0.0.0/4 or is 255.255.255.255.  [validateOpen]
    answers OpenMessageError/BadBGPIdentifier only for such an
    identifier, and always for one in a message that passes the version
    check, which it makes first; every other identifier is accepted. *)
Theorem validateOpen_identifier (id : Z) :
  0 <= id < 2 ^ 32 ->
  (isValidIdentifier id = false <-> reserved_identifier id)
  /\ (forall msg s,
         BGPOpen.BGPIdentifier msg = id ->
         validateOpen msg
         = Some (ErrBGP (BGPError.mk OpenMessageError BadBGPIdentifier s)) ->
         reserved_identifier id)
  /\ (forall msg,
         BGPOpen.BGPIdentifier msg = id ->
         BGPOpen.Version msg = BGP4Version ->
         (reserved_identifier id ->
          validateOpen msg
          = Some (ErrBGP (BGPError.mk OpenMessageError BadBGPIdentifier
                            "Invalid BGP identifier")))
         /\ (~ reserved_identifier id -> validateOpen msg = None)).
Proof.
  intros Hid.
  pose proof (isValidIdentifier_false_iff _ Hid) as Hiff.
  split; [exact Hiff|]. split.
  - intros msg s <-. unfold validateOpen.
    destruct (BGPOpen.Version msg =? BGP4Version); cbn [negb]; [|discriminate].
    destruct (isValidIdentifier (BGPOpen.BGPIdentifier msg)) eqn:E;
      cbn [negb]; [discriminate|].
    intros _. apply Hiff. reflexivity.
  - intros msg <- Hv. unfold validateOpen. rewrite Hv, Z.eqb_refl. cbn [negb].
    split; intros H.
    + apply Hiff in H. rewrite H. reflexivity.
    + destruct (isValidIdentifier (BGPOpen.BGPIdentifier msg)) eqn:E;
        [reflexivity|]. elim H. apply Hiff. reflexivity.
Qed.

(** The Open message of the spec's scenario 4 (identifier 127.0.0.1) is
    refused, and the one of scenario 3 (identifier 1.2.3.4) is accepted. *)
Lemma validateOpen_identifier_scenarios :
  validateOpen (BGPOpen.mk 4 65001 180 (ipv4 127 0 0 1) 0)
  = Some (ErrBGP (BGPError.mk OpenMessageError BadBGPIdentifier
                    "Invalid BGP identifier"))
  /\ validateOpen (BGPOpen.mk 4 65001 180 (ipv4 1 2 3 4) 0) = None.
Proof.
  split.
  - assert (Hid : 0 <= ipv4 127 0 0 1 < 2 ^ 32)
      by (vm_compute; split; [discriminate | reflexivity]).
    destruct (validateOpen_identifier _ Hid) as (_ & _ & H).
    apply (H (BGPOpen.mk 4 65001 180 (ipv4 127 0 0 1) 0) eq_refl eq_refl).
    right; left. reflexivity.
  - assert (Hid : 0 <= ipv4 1 2 3 4 < 2 ^ 32)
      by (vm_compute; split; [discriminate | reflexivity]).
    destruct (validateOpen_identifier _ Hid) as (_ & _ & H).
    apply (H (BGPOpen.mk 4 65001 180 (ipv4 1 2 3 4) 0) eq_refl eq_refl).
    intros [E | [E | [E | E]]]; vm_compute in E; discriminate E.
Defined.

(** ** Update: the NLRI length *)

Lemma uint16_nlriLen (l tpal wrl : Z) :
  uint16 (uint16 (uint16 (uint16 l - 4) - uint16 tpal) - uint16 wrl)
  = nlri_len l tpal wrl mod 65536.
Proof.
  unfold uint16, nlri_len. Z.div_mod_to_equations. lia.
Qed.

Lemma be_uint_2_range (a b : byte) : 0 <= be_uint [a; b] < 65536.
Proof.
  unfold be_uint. cbn [fold_left].
  pose proof (byteZ_range a). pose proof (byteZ_range b). lia.
Qed.

(** A successful read of one [uint16] field. *)
Lemma decode_u16_inv (buf : buffer) (vs : list Z) (e : option error) (rest : buffer) :
  decode buf [2%nat] = (vs, e, rest) ->
  (exists a b, buf = a :: b :: rest /\ vs = [be_uint [a; b]] /\ e = None)
  \/ (exists io, vs = []
        /\ e = Some (Errorf ("Unable to read from buffer: " ++ ioerr_Error io)%string)).
Proof.
  destruct buf as [|a [|b t]]; cbn; intros H; inversion H; subst.
  - right. exists EOF. auto.
  - right. exists ErrUnexpectedEOF. auto.
  - left. exists a, b. auto.
Qed.

Section UpdateFacts.

Variable NLRI_t : Type.
Variable PathAttribute_t : Type.
Variable decodeNLRIs : buffer -> Z -> option NLRI_t * option error * buffer.
Variable decodePathAttrs : buffer -> Z -> option PathAttribute_t * option error * buffer.

Lemma decodeUpdateMsg_error_origin (buf : buffer) (l : Z) msg e rest :
  decodeUpdateMsg decodeNLRIs decodePathAttrs buf l = (msg, Some e, rest) ->
  error_origin decodeNLRIs decodePathAttrs e.
Proof.
  unfold decodeUpdateMsg, error_origin.
  destruct (decode buf [2%nat]) as [[vs e1] b1] eqn:D1.
  destruct (decode_u16_inv _ _ _ _ D1) as [(a & b & _ & -> & ->) | (io & -> & ->)].
  2:{ intros [= _ <- _]. left. exists io. reflexivity. }
  destruct (decodeNLRIs b1 _) as [[wr [e2|]] b2] eqn:D2.
  { intros [= _ <- _]. right; left. eauto. }
  destruct (decode b2 [2%nat]) as [[vs' e3] b3] eqn:D3.
  destruct (decode_u16_inv _ _ _ _ D3) as [(a' & b' & _ & -> & ->) | (io & -> & ->)].
  2:{ intros [= _ <- _]. left. exists io. reflexivity. }
  destruct (decodePathAttrs b3 _) as [[pa [e4|]] b4] eqn:D4.
  { intros [= _ <- _]. right; right. eauto. }
  destruct (_ >? 0).
  - destruct (decodeNLRIs b4 _) as [[nlri [e5|]] b5] eqn:D5.
    + intros [= _ <- _]. right; left. eauto.
    + discriminate.
  - discriminate.
Qed.

(** C1 (amended).  The Update decoder computes the NLRI length in 16-bit
    unsigned arithmetic, [(body_len - 4 - total_path_attr_len -
    withdrawn_routes_len) mod 2^16].  It raises no error of its own: an
    error it returns is a reader error or the error of [decodeNLRIs] or
    [decodePathAttrs].  Once the withdrawn routes and the path attributes
    are parsed, a zero length ends the decoding with no NLRI, and a
    non-zero length is handed to [decodeNLRIs] as its byte budget, whose
    outcome is returned; when the mathematical quantity is positive the
    budget is that quantity. *)
Theorem decodeUpdateMsg_nlri_len (buf : buffer) (l : Z) :
  0 <= l < 65536 ->
  (forall msg e rest,
      decodeUpdateMsg decodeNLRIs decodePathAttrs buf l = (msg, Some e, rest) -> error_origin decodeNLRIs decodePathAttrs e)
  /\ (forall wrl wr b1 b2 tpal pa b3 b4,
         decode buf [2%nat] = ([wrl], None, b1) ->
         decodeNLRIs b1 wrl = (wr, None, b2) ->
         decode b2 [2%nat] = ([tpal], None, b3) ->
         decodePathAttrs b3 tpal = (pa, None, b4) ->
         let n := nlri_len l tpal wrl mod 65536 in
         (0 < nlri_len l tpal wrl -> n = nlri_len l tpal wrl)
         /\ (n = 0 ->
             decodeUpdateMsg decodeNLRIs decodePathAttrs buf l = (mkBGPUpdate wrl wr tpal pa None, None, b4))
         /\ (n <> 0 ->
             decodeUpdateMsg decodeNLRIs decodePathAttrs buf l
             = (let '(nlri, e, b5) := decodeNLRIs b4 n in
                (mkBGPUpdate wrl wr tpal pa nlri, e, b5)))).
Proof.
  intros Hl. split.
  { intros msg e rest. apply decodeUpdateMsg_error_origin. }
  intros wrl wr b1 b2 tpal pa b3 b4 D1 D2 D3 D4 n.
  assert (Hwrl : 0 <= wrl < 65536).
  { destruct (decode_u16_inv _ _ _ _ D1) as [(a & b & _ & E & _) | (io & E & _)];
      inversion E. apply be_uint_2_range. }
  assert (Htpal : 0 <= tpal < 65536).
  { destruct (decode_u16_inv _ _ _ _ D3) as [(a & b & _ & E & _) | (io & E & _)];
      inversion E. apply be_uint_2_range. }
  assert (Hn : 0 <= n < 65536) by (apply Z.mod_pos_bound; lia).
  assert (Hu : uint16 wrl = wrl) by (apply Z.mod_small; lia).
  rewrite <- Hu in D2.
  split; [|split].
  - intros Hpos. unfold n. apply Z.mod_small. unfold nlri_len in *. lia.
  - intros H0. unfold decodeUpdateMsg. rewrite D1. unfold field. cbn [nth].
    cbv zeta. rewrite D2, D3. cbn [nth]. rewrite D4, uint16_nlriLen. fold n. rewrite H0.
    reflexivity.
  - intros H0. unfold decodeUpdateMsg. rewrite D1. unfold field. cbn [nth].
    cbv zeta. rewrite D2, D3. cbn [nth]. rewrite D4, uint16_nlriLen. fold n.
    replace (n >? 0) with true by (symmetry; rewrite Z.gtb_ltb; apply Z.ltb_lt; lia).
    destruct (decodeNLRIs b4 n) as [[nlri [e|]] b5]; reflexivity.
Qed.

End UpdateFacts.

(** With the sub-decoders as the spec describes them, the eight-byte
    Update body announcing 10.0.0.0/24 decodes to that prefix. *)
Lemma decodeUpdateMsg_nlri_len_small :
  decodeUpdateMsg decodeNLRIs decodePathAttrs small_update_body 8
  = (mkBGPUpdate 0 None 0 None (Some [mkPrefix [x0a; x00; x00; x00] 24]),
     None, []).
Proof.
  assert (Hl : 0 <= 8 < 65536) by lia.
  destruct (decodeUpdateMsg_nlri_len _ _ decodeNLRIs decodePathAttrs
              small_update_body 8 Hl) as [_ H].
  destruct (H 0 None [x00; x00; x18; x0a; x00; x00] [x00; x00; x18; x0a; x00; x00]
              0 None [x18; x0a; x00; x00] [x18; x0a; x00; x00]
              eq_refl eq_refl eq_refl eq_refl) as (_ & _ & Hnz).
  rewrite Hnz; [reflexivity | vm_compute; discriminate].
Defined.

(** C1 (as stated) fails.  The body declares 65532 bytes of withdrawn
    routes and no path attribute while the declared body length is 0, so
    that [body_len - 4 - total_path_attr_len - withdrawn_routes_len] is
    [-65536]; the decoder does not fail: the 16-bit length wraps to 0 and
    no error is returned. *)
Lemma decodeUpdateMsg_negative_nlri_len :
  let '(msg, err, rest) :=
    decodeUpdateMsg decodeNLRIs decodePathAttrs long_withdrawal_body 0 in
  nlri_len 0 (TotalPathAttrLen msg) (WithdrawnRoutesLen msg) = -65536
  /\ err = None /\ rest = [].
Proof.
  vm_compute. repeat split.
Qed.

End PacketFacts.

(** * Properties of the route entry *)

Module RTFacts.
Import RT RTSpec.

(** ** Construction *)

(** C10.  For every prefix and every list of initial paths, non-empty or
    not, [NewRoute] stores the paths and leaves the active paths empty:
    no selection runs at construction. *)
Theorem NewRoute_activePaths_empty
    (Prefix_t StaticPath_t BGPPath_t : Type)
    (pfx : option Prefix_t) (initial : list (PathPtr StaticPath_t BGPPath_t)) :
  activePaths (NewRoute pfx initial) = []
  /\ paths (NewRoute pfx initial) = initial
  /\ Prefix (NewRoute pfx initial) = pfx.
Proof.
  repeat split.
Qed.

(** Selection on the same route is not empty: the empty active set of a
    new route is not the selection result. *)
Lemma NewRoute_not_selected :
  activePaths (NewRoute ex_pfx [static_path 1]) = []
  /\ option_map activePaths (ex_bestPaths (NewRoute ex_pfx [static_path 1]))
     = Some [static_path 1].
Proof.
  split; reflexivity.
Qed.

(** ** Path.Equal *)

Section EqualFacts.

Variable StaticPath_t : Type.
Variable BGPPath_t : Type.
Variable BGPPath_eq_dec : forall a b : BGPPath_t, {a = b} + {a <> b}.

(** What [Equal] compares: the type tags, and the BGP payloads of two BGP
    paths.  The static payload is never read. *)
Lemma Equal_true_iff (p q : PathPtr StaticPath_t BGPPath_t) :
  Equal BGPPath_eq_dec p q = Some true
  <-> exists p' q',
        p = Some p' /\ q = Some q' /\ Type_ p' = Type_ q'
        /\ (Type_ p' = BGPPathType ->
            exists a, BGPPath p' = Some a /\ BGPPath q' = Some a).
Proof.
  unfold Equal. split.
  - destruct p as [p'|]; [|discriminate].
    destruct q as [q'|]; [|discriminate].
    destruct (Z.eqb_spec (Type_ p') (Type_ q')) as [Ht|Ht]; [|discriminate].
    cbn [negb]. intros H. exists p', q'. repeat split; auto.
    intros Hb. rewrite Hb, Z.eqb_refl in H.
    destruct (BGPPath p') as [a|]; [|discriminate].
    destruct (BGPPath q') as [b|]; [|discriminate].
    destruct (BGPPath_eq_dec a b); [|discriminate]. subst. eauto.
  - intros (p' & q' & -> & -> & Ht & Hb).
    rewrite Ht, Z.eqb_refl. cbn [negb]. rewrite <- Ht.
    destruct (Z.eqb_spec (Type_ p') BGPPathType) as [E|E]; [|reflexivity].
    destruct (Hb E) as (a & -> & ->).
    destruct (BGPPath_eq_dec a a); [reflexivity | contradiction].
Qed.

Lemma Equal_wf (p q : PathPtr StaticPath_t BGPPath_t) :
  wf_path p -> wf_path q ->
  Equal BGPPath_eq_dec p q = Some (equalb BGPPath_eq_dec p q).
Proof.
  unfold equalb, Equal, wf_path.
  destruct p as [p'|]; [|reflexivity].
  destruct q as [q'|]; [|reflexivity].
  intros Hp Hq.
  destruct (Z.eqb_spec (Type_ p') (Type_ q')) as [Ht|Ht]; [|reflexivity].
  cbn [negb].
  destruct (Z.eqb_spec (Type_ p') BGPPathType) as [E|E]; [|reflexivity].
  destruct (BGPPath p') as [a|]; [|elim (Hp E); reflexivity].
  destruct (BGPPath q') as [b|]; [|rewrite Ht in E; elim (Hq E); reflexivity].
  destruct (BGPPath_eq_dec a b); reflexivity.
Qed.

End EqualFacts.

(** C4, at the failing input: two static paths with the next hops 1 and 2
    are reported equal. *)
Lemma Equal_static_next_hops :
  ex_Equal (static_path 1) (static_path 2) = Some true
  /\ ~ (forall p q, static_path 1 = Some p -> static_path 2 = Some q ->
        same_path p q).
Proof.
  split; [reflexivity|].
  intros H. destruct (H _ _ eq_refl eq_refl) as (_ & Hs & _).
  discriminate Hs.
Qed.

(** ** removePath and Remove *)

(** The in-place shift of [removePath], read back as a list: the entry at
    index [n] is gone. *)
Lemma shift_truncate {A : Type} (l : list A) (n : nat) :
  (n < List.length l)%nat ->
  firstn (List.length l - 1) (removePath_shift l n)
  = firstn n l ++ skipn (S n) l.
Proof.
  intros Hn. unfold removePath_shift, copy.
  rewrite (firstn_all2 (n := List.length (skipn n l)) (skipn (S n) l))
    by (rewrite !length_skipn; lia).
  rewrite app_assoc.
  assert (Hl : List.length (firstn n l ++ skipn (S n) l) = (List.length l - 1)%nat).
  { rewrite length_app, length_firstn, length_skipn. lia. }
  rewrite <- Hl, firstn_app, firstn_all, Nat.sub_diag. cbn [firstn].
  apply app_nil_r.
Qed.

Section RemoveFacts.

Variable Prefix_t : Type.
Variable StaticPath_t : Type.
Variable BGPPath_t : Type.
Variable BGPPath_eq_dec : forall a b : BGPPath_t, {a = b} + {a <> b}.

Local Abbreviation ptr := (PathPtr StaticPath_t BGPPath_t).
Local Abbreviation eqb := (equalb BGPPath_eq_dec).

Lemma index_of_bound (del : ptr) (l : list ptr) (k : nat) :
  index_of BGPPath_eq_dec del l = Some k -> (k < List.length l)%nat.
Proof.
  revert k. induction l as [|x l IH]; cbn; [discriminate|].
  intros k. destruct (eqb x del).
  - intros [= <-]. lia.
  - destruct (index_of BGPPath_eq_dec del l) as [k'|]; cbn; [|discriminate].
    intros [= <-]. specialize (IH k' eq_refl). lia.
Qed.

Lemma remove_first_index (del : ptr) (l : list ptr) :
  remove_first BGPPath_eq_dec del l
  = match index_of BGPPath_eq_dec del l with
    | Some k => firstn k l ++ skipn (S k) l
    | None => l
    end.
Proof.
  induction l as [|x l IH]; cbn; [reflexivity|].
  destruct (eqb x del); [reflexivity|].
  rewrite IH. destruct (index_of BGPPath_eq_dec del l); reflexivity.
Qed.

Lemma removePath_scan_wf (del : ptr) (l : list ptr) (j0 : Z) :
  Forall wf_path l -> wf_path del ->
  removePath_scan BGPPath_eq_dec l del j0
  = Some (match index_of BGPPath_eq_dec del l with
          | Some k => j0 + Z.of_nat k
          | None => -1
          end).
Proof.
  intros Hl Hd. revert j0.
  induction Hl as [|x l Hx Hl IH]; intros j0; cbn; [reflexivity|].
  rewrite (Equal_wf _ _ BGPPath_eq_dec x del Hx Hd).
  destruct (eqb x del).
  - f_equal. lia.
  - rewrite IH. destruct (index_of BGPPath_eq_dec del l); cbn; f_equal. lia.
Qed.

(** On well-formed paths [removePath] does not panic and removes the
    first entry equal to [del]. *)
Lemma removePath_wf (del : ptr) (l : list ptr) :
  Forall wf_path l -> wf_path del ->
  removePath BGPPath_eq_dec l del = Some (remove_first BGPPath_eq_dec del l).
Proof.
  intros Hl Hd. unfold removePath.
  rewrite (removePath_scan_wf del l 0 Hl Hd), remove_first_index.
  destruct (index_of BGPPath_eq_dec del l) as [k|] eqn:E; [|reflexivity].
  replace (0 + Z.of_nat k <? 0) with false by (symmetry; apply Z.ltb_ge; lia).
  replace (Z.to_nat (0 + Z.of_nat k)) with k by lia.
  cbv zeta. f_equal. apply shift_truncate. eapply index_of_bound, E.
Qed.

Lemma remove_first_incl (del : ptr) (l : list ptr) (x : ptr) :
  In x (remove_first BGPPath_eq_dec del l) -> In x l.
Proof.
  induction l as [|y l IH]; cbn; [tauto|].
  destruct (eqb y del); cbn; tauto.
Qed.

Lemma remove_first_wf (del : ptr) (l : list ptr) :
  Forall wf_path l -> Forall wf_path (remove_first BGPPath_eq_dec del l).
Proof.
  rewrite !Forall_forall. intros H x Hx. eapply H, remove_first_incl, Hx.
Qed.

Lemma remove_first_no_match (del : ptr) (l : list ptr) :
  (forall x, In x l -> eqb x del = false) ->
  remove_first BGPPath_eq_dec del l = l.
Proof.
  induction l as [|y l IH]; cbn; [reflexivity|].
  intros H. rewrite (H y) by auto. f_equal. apply IH. auto.
Qed.

Lemma remove_first_match (del x : ptr) (l1 l2 : list ptr) :
  (forall y, In y l1 -> eqb y del = false) -> eqb x del = true ->
  remove_first BGPPath_eq_dec del (l1 ++ x :: l2) = l1 ++ l2.
Proof.
  induction l1 as [|y l1 IH]; cbn; intros H Hx.
  - rewrite Hx. reflexivity.
  - rewrite (H y) by auto. f_equal. apply IH; auto.
Qed.

Lemma remove_all_first_no_match (dels l : list ptr) :
  (forall x del, In x l -> In del dels -> eqb x del = false) ->
  remove_all_first BGPPath_eq_dec dels l = l.
Proof.
  unfold remove_all_first. induction dels as [|d dels IH]; cbn; [reflexivity|].
  intros H. rewrite remove_first_no_match by (intros; apply H; auto).
  apply IH. intros; apply H; auto.
Qed.

Lemma Remove_loop_wf (dels l : list ptr) :
  Forall wf_path l -> Forall wf_path dels ->
  Remove_loop BGPPath_eq_dec l dels
  = Some (remove_all_first BGPPath_eq_dec dels l).
Proof.
  intros Hl Hd. revert l Hl. unfold remove_all_first.
  induction Hd as [|d dels Hd Hds IH]; intros l Hl; cbn; [reflexivity|].
  rewrite (removePath_wf d l Hl Hd). apply IH, remove_first_wf, Hl.
Qed.

(** [Remove] never touches the active paths. *)
Lemma Remove_keeps_activePaths (r rm r' : Route Prefix_t StaticPath_t BGPPath_t)
    (final : bool) :
  Remove BGPPath_eq_dec r rm = Some (r', final) ->
  activePaths r' = activePaths r /\ pfx r' = pfx r.
Proof.
  unfold Remove. destruct (Remove_loop _ _ _); [|discriminate].
  intros [= <- _]. split; reflexivity.
Qed.

(** *** The store-level loop and the list-level loop *)

Lemma removePath_shift_length {A : Type} (l : list A) (i : nat) :
  (i < List.length l)%nat ->
  List.length (removePath_shift l i) = List.length l.
Proof.
  intros Hi. unfold removePath_shift, copy.
  rewrite !length_app, !length_firstn, !length_skipn. lia.
Qed.

Lemma removePath_scan_bound (l : list ptr) (del : ptr) (j0 i : Z) :
  removePath_scan BGPPath_eq_dec l del j0 = Some i ->
  i = -1 \/ j0 <= i < j0 + Z.of_nat (List.length l).
Proof.
  revert j0. induction l as [|x l IH]; intros j0; cbn [removePath_scan].
  - intros [= <-]. left. reflexivity.
  - destruct (Equal BGPPath_eq_dec x del) as [[|]|]; [| |discriminate].
    + intros [= <-]. right. cbn [List.length]. lia.
    + intros H. destruct (IH _ H) as [-> | Hb]; [left; reflexivity|].
      right. cbn [List.length]. lia.
Qed.

Lemma view_length (h : store StaticPath_t BGPPath_t) (s : slice) :
  (sl_len s <= List.length (h (sl_arr s)))%nat ->
  List.length (view h s) = sl_len s.
Proof.
  intros H. unfold view. rewrite length_firstn. lia.
Qed.

Lemma view_write (h : store StaticPath_t BGPPath_t) (a n : nat) (v : list ptr) :
  view (write h a v) (mkSlice a n) = firstn n v.
Proof.
  unfold view, write. cbn [sl_arr sl_len]. rewrite Nat.eqb_refl. reflexivity.
Qed.

(** One step: [removePath] on the store does to the view of the slice
    what [removePath] does to a list, and touches no other array. *)
Lemma removePath_store_view (h : store StaticPath_t BGPPath_t) (s : slice) (del : ptr) :
  (sl_len s <= List.length (h (sl_arr s)))%nat ->
  match removePath_store BGPPath_eq_dec h s del with
  | None => removePath BGPPath_eq_dec (view h s) del = None
  | Some (h', s') =>
      removePath BGPPath_eq_dec (view h s) del = Some (view h' s')
      /\ sl_arr s' = sl_arr s
      /\ (sl_len s' <= List.length (h' (sl_arr s')))%nat
      /\ (forall a, a <> sl_arr s -> h' a = h a)
  end.
Proof.
  intros Hlen. unfold removePath_store, removePath.
  destruct (removePath_scan BGPPath_eq_dec (view h s) del 0) as [i|] eqn:E;
    [|reflexivity].
  destruct (Z.ltb_spec i 0) as [Hi|Hi].
  { repeat split; auto. }
  destruct (removePath_scan_bound _ _ _ _ E) as [-> | Hb]; [lia|].
  rewrite (view_length h s Hlen) in Hb |- *.
  assert (Hn : (Z.to_nat i < List.length (view h s))%nat)
    by (rewrite (view_length h s Hlen); lia).
  pose proof (removePath_shift_length _ _ Hn) as Hsl.
  rewrite (view_length h s Hlen) in Hsl.
  cbn [sl_arr sl_len]. repeat split.
  - f_equal. rewrite view_write, firstn_app, Hsl.
    replace (sl_len s - 1 - sl_len s)%nat with O by lia.
    cbn [firstn]. symmetry. apply app_nil_r.
  - unfold write. rewrite Nat.eqb_refl, length_app, Hsl, length_skipn. lia.
  - intros a Ha. unfold write.
    destruct (Nat.eqb_spec a (sl_arr s)); [contradiction | reflexivity].
Qed.

Lemma skipn_nth (l : list ptr) (k : nat) :
  (k < List.length l)%nat -> skipn k l = nth k l None :: skipn (S k) l.
Proof.
  revert k. induction l as [|x l IH]; intros k Hk; [cbn in Hk; lia|].
  destruct k as [|k]; [reflexivity|]. cbn [List.length] in Hk.
  cbn [skipn nth]. apply IH. lia.
Qed.

Lemma Remove_store_loop_disjoint (ms : slice) (todo : nat) :
  forall (k : nat) (h : store StaticPath_t BGPPath_t) (rs : slice),
    sl_arr rs <> sl_arr ms ->
    (sl_len rs <= List.length (h (sl_arr rs)))%nat ->
    (k + todo <= List.length (h (sl_arr ms)))%nat ->
    match Remove_store_loop BGPPath_eq_dec todo k h rs ms with
    | None =>
        Remove_loop BGPPath_eq_dec (view h rs)
          (firstn todo (skipn k (h (sl_arr ms)))) = None
    | Some (h', rs') =>
        Remove_loop BGPPath_eq_dec (view h rs)
          (firstn todo (skipn k (h (sl_arr ms)))) = Some (view h' rs')
        /\ (sl_len rs' <= List.length (h' (sl_arr rs')))%nat
    end.
Proof.
  induction todo as [|todo IH]; intros k h rs Hne Hrs Hk.
  - cbn. split; [reflexivity | exact Hrs].
  - cbn [Remove_store_loop]. rewrite (skipn_nth _ k) by lia.
    cbn [firstn Remove_loop].
    pose proof (removePath_store_view h rs (nth k (h (sl_arr ms)) None) Hrs) as Hstep.
    destruct (removePath_store BGPPath_eq_dec h rs _) as [[h' rs']|].
    + destruct Hstep as (-> & Harr & Hlen' & Hsame).
      assert (Hm : h' (sl_arr ms) = h (sl_arr ms)) by (apply Hsame; auto).
      specialize (IH (S k) h' rs').
      rewrite Hm in IH. apply IH; [congruence | exact Hlen' | lia].
    + rewrite Hstep. reflexivity.
Qed.

(** When [rm.paths] has a backing array of its own, [Remove] on the
    store is [Remove] on the lists. *)
Lemma Remove_store_disjoint (h : store StaticPath_t BGPPath_t) (rs ms : slice) :
  sl_arr rs <> sl_arr ms ->
  (sl_len rs <= List.length (h (sl_arr rs)))%nat ->
  (sl_len ms <= List.length (h (sl_arr ms)))%nat ->
  Remove_store BGPPath_eq_dec h rs ms
  = option_map (fun ps => (ps, (List.length ps =? 0)%nat))
      (Remove_loop BGPPath_eq_dec (view h rs) (view h ms)).
Proof.
  intros Hne Hrs Hms. unfold Remove_store.
  pose proof (Remove_store_loop_disjoint ms (sl_len ms) 0 h rs Hne Hrs Hms) as H.
  cbn [skipn] in H. fold (view h ms) in H.
  destruct (Remove_store_loop BGPPath_eq_dec (sl_len ms) 0 h rs ms) as [[h' rs']|].
  - destruct H as [-> Hlen]. cbn [option_map].
    rewrite (view_length h' rs' Hlen). reflexivity.
  - rewrite H. reflexivity.
Qed.

(** C9 (amended).  For a route [r] and an argument [rm] whose paths can be
    compared (a BGP path carries its payload), [Remove] does not panic;
    for each path of [rm], in order, it deletes from [r]'s paths the first
    entry that [Path.Equal] matches, and leaves them unchanged when no
    entry matches; it returns [true] exactly when [r]'s paths are empty
    afterwards.  This is what the loop does on the store whenever the
    slice of [rm] has a backing array of its own.  A repeated withdrawal
    is a no-op when no remaining entry matches a withdrawn path. *)
Theorem Remove_removes_first_equal (r rm : Route Prefix_t StaticPath_t BGPPath_t) :
  Forall wf_path (paths r) -> Forall wf_path (paths rm) ->
  exists ps,
    Remove BGPPath_eq_dec r rm
    = Some (mkRoute (pfx r) (activePaths r) ps, (List.length ps =? 0)%nat)
    /\ ps = remove_all_first BGPPath_eq_dec (paths rm) (paths r)
    /\ ((List.length ps =? 0)%nat = true <-> ps = [])
    /\ (forall (del : ptr) (l : list ptr),
           (forall x, In x l -> eqb x del = false) ->
           remove_first BGPPath_eq_dec del l = l)
    /\ (forall (del x : ptr) (l1 l2 : list ptr),
           (forall y, In y l1 -> eqb y del = false) -> eqb x del = true ->
           remove_first BGPPath_eq_dec del (l1 ++ x :: l2) = l1 ++ l2)
    /\ (forall (h : store StaticPath_t BGPPath_t) (rs ms : slice),
           view h rs = paths r -> view h ms = paths rm ->
           sl_arr rs <> sl_arr ms ->
           (sl_len rs <= List.length (h (sl_arr rs)))%nat ->
           (sl_len ms <= List.length (h (sl_arr ms)))%nat ->
           Remove_store BGPPath_eq_dec h rs ms
           = Some (ps, (List.length ps =? 0)%nat))
    /\ ((forall x del, In x ps -> In del (paths rm) -> eqb x del = false) ->
        Remove BGPPath_eq_dec (mkRoute (pfx r) (activePaths r) ps) rm
        = Some (mkRoute (pfx r) (activePaths r) ps, (List.length ps =? 0)%nat)).
Proof.
  intros Hr Hrm.
  exists (remove_all_first BGPPath_eq_dec (paths rm) (paths r)).
  assert (Hwf : Forall wf_path (remove_all_first BGPPath_eq_dec (paths rm) (paths r))).
  { clear Hrm. unfold remove_all_first. revert Hr.
    generalize (paths r). induction (paths rm) as [|d dels IH]; cbn; auto.
    intros l Hl. apply IH, remove_first_wf, Hl. }
  split; [|split; [|split; [|split; [|split; [|split]]]]].
  - unfold Remove. rewrite (Remove_loop_wf _ _ Hr Hrm). reflexivity.
  - reflexivity.
  - split.
    + intros H. apply Nat.eqb_eq in H.
      destruct (remove_all_first _ _ _); [reflexivity | discriminate].
    + intros ->. reflexivity.
  - apply remove_first_no_match.
  - intros. apply remove_first_match; assumption.
  - intros h rs ms Hvr Hvm Hne Hlr Hlm.
    rewrite (Remove_store_disjoint h rs ms Hne Hlr Hlm), Hvr, Hvm.
    rewrite (Remove_loop_wf _ _ Hr Hrm). reflexivity.
  - intros Hno. unfold Remove. cbn [paths pfx activePaths].
    rewrite (Remove_loop_wf _ _ Hwf Hrm).
    rewrite (remove_all_first_no_match _ _ Hno). reflexivity.
Qed.

End RemoveFacts.

(** The withdrawal of one of two equal paths, by the theorem. *)
Lemma Remove_removes_first_equal_example :
  ex_Remove (mkRoute ex_pfx [] [static_path 1; static_path 2])
    (mkRoute ex_pfx [] [static_path 1])
  = Some (mkRoute ex_pfx [] [static_path 2], false).
Proof.
  assert (Hr : Forall wf_path [static_path 1; static_path 2])
    by (repeat constructor; discriminate).
  assert (Hrm : Forall wf_path [static_path 1])
    by (repeat constructor; discriminate).
  destruct (Remove_removes_first_equal Z Z Z Z.eq_dec
              (mkRoute ex_pfx [] [static_path 1; static_path 2])
              (mkRoute ex_pfx [] [static_path 1]) Hr Hrm)
    as (ps & H & -> & _).
  exact H.
Defined.

(** C9 (as stated) fails.  A route that holds the same path twice (two
    [AddPath] of it) loses one copy at each withdrawal: the second
    withdrawal is not a no-op.  And a route withdrawn from itself
    ([r.Remove(r)]: both slices are the array 0 of the store, which holds
    three distinct BGP paths) keeps its second path and returns
    [false]. *)
Lemma Remove_not_idempotent :
  ex_Remove (mkRoute ex_pfx [] [static_path 1; static_path 1])
    (mkRoute ex_pfx [] [static_path 1])
  = Some (mkRoute ex_pfx [] [static_path 1], false)
  /\ ex_Remove (mkRoute ex_pfx [] [static_path 1])
       (mkRoute ex_pfx [] [static_path 1])
     = Some (mkRoute ex_pfx [] [], true)
  /\ Remove_store Z.eq_dec three_paths_store (mkSlice 0 3) (mkSlice 0 3)
     = Some ([bgp_path 2], false).
Proof.
  repeat split.
Qed.

(** ** Selection *)

Section SelectionFacts.

Variable Prefix_t : Type.
Variable StaticPath_t : Type.
Variable BGPPath_t : Type.
Variable staticPathSelection : Route Prefix_t StaticPath_t BGPPath_t
                               -> list (PathPtr StaticPath_t BGPPath_t).
Variable bgpPathSelection : Route Prefix_t StaticPath_t BGPPath_t
                            -> list (PathPtr StaticPath_t BGPPath_t).

Local Abbreviation ptr := (PathPtr StaticPath_t BGPPath_t).

Lemma min_type_le (l : list ptr) (best : Z) :
  min_type l best <= best
  /\ (forall p, In (Some p) l -> min_type l best <= Type_ p).
Proof.
  revert best. unfold min_type.
  induction l as [|q l IH]; intros best; cbn; [split; [lia | tauto]|].
  destruct q as [p|].
  - destruct (IH (Z.min best (Type_ p))) as [H1 H2]. split; [lia|].
    intros p' [[= <-] | Hin]; [lia | auto].
  - destruct (IH best) as [H1 H2]. split; [lia|].
    intros p' [[=] | Hin]. auto.
Qed.

Lemma min_type_in (l : list ptr) (best : Z) :
  min_type l best = best
  \/ exists p, In (Some p) l /\ Type_ p = min_type l best.
Proof.
  revert best. unfold min_type.
  induction l as [|q l IH]; intros best; cbn; [auto|].
  destruct q as [p|].
  - destruct (IH (Z.min best (Type_ p))) as [H | (p' & Hin & H)].
    + rewrite H. destruct (Z.min_spec best (Type_ p)) as [[_ E] | [_ E]];
        rewrite E; [auto | right; exists p; auto].
    + right. exists p'. auto.
  - destruct (IH best) as [H | (p' & Hin & H)]; [auto|].
    right. exists p'. auto.
Qed.

(** The loop of [getBestProtocol] once [best] holds a path type: it
    computes the minimum. *)
Lemma getBestProtocol_loop_min (l : list ptr) (best : Z) :
  Forall typed_path l -> 1 <= best ->
  getBestProtocol_loop l best = Some (min_type l best).
Proof.
  intros Hl. revert best. unfold min_type.
  induction Hl as [|q l (p & -> & Hp) Hl IH]; intros best Hb; cbn;
    [reflexivity|].
  destruct (Z.eqb_spec best 0); [lia|].
  destruct (Z.ltb_spec (Type_ p) best).
  - rewrite Z.min_r by lia. apply IH. lia.
  - rewrite Z.min_l by lia. apply IH. lia.
Qed.

(** Protocol arbitration: on a non-empty list of typed paths
    [getBestProtocol] returns the smallest type ordinal present. *)
Lemma getBestProtocol_min (l : list ptr) :
  Forall typed_path l -> l <> [] ->
  exists m,
    getBestProtocol l = Some m
    /\ (exists p, In (Some p) l /\ Type_ p = m)
    /\ (forall p, In (Some p) l -> m <= Type_ p).
Proof.
  intros Hl Hne. destruct Hl as [|q l (p & -> & Hp) Hl]; [contradiction|].
  unfold getBestProtocol. cbn.
  rewrite (getBestProtocol_loop_min l (Type_ p) Hl) by lia.
  exists (min_type l (Type_ p)). split; [reflexivity|].
  destruct (min_type_le l (Type_ p)) as [H1 H2].
  split.
  - destruct (min_type_in l (Type_ p)) as [H | (p' & Hin & H)].
    + exists p. split; [left; reflexivity | auto].
    + exists p'. split; [right; exact Hin | exact H].
  - intros p' [[= <-] | Hin]; auto.
Qed.

Lemma getBestProtocol_total (l : list ptr) (best : Z) :
  (forall q, In q l -> q <> None) ->
  exists m, getBestProtocol_loop l best = Some m.
Proof.
  revert best. induction l as [|q l IH]; intros best H; cbn; [eauto|].
  destruct q as [p|]; [|elim (H None); [left|]; reflexivity].
  destruct (best =? 0); [|destruct (Type_ p <? best)];
    apply IH; intros; apply H; right; assumption.
Qed.

(** On a route whose paths are typed and one of which is Static, the
    arbitration answers Static and the active paths become what the static
    selection returns for the route, whatever BGP, OSPF or IS-IS paths it
    holds; the BGP selection is not consulted. *)
Lemma bestPaths_typed_static (r : Route Prefix_t StaticPath_t BGPPath_t) :
  Forall typed_path (paths r) ->
  (exists q, In q (paths r) /\ is_static q) ->
  getBestProtocol (paths r) = Some StaticPathType
  /\ bestPaths staticPathSelection bgpPathSelection r
     = Some (mkRoute (pfx r) (staticPathSelection r) (paths r)).
Proof.
  intros Hty (q & Hin & p & -> & Hp).
  assert (Hne : paths r <> []) by (intros E; rewrite E in Hin; exact Hin).
  destruct (getBestProtocol_min (paths r) Hty Hne)
    as (m & Hm & (p' & Hin' & Hp') & Hle).
  assert (Em : m = StaticPathType).
  { pose proof (Hle p Hin) as H1. rewrite Hp in H1.
    rewrite Forall_forall in Hty.
    destruct (Hty _ Hin') as (p'' & [= <-] & H2). unfold StaticPathType in *. lia. }
  rewrite Em in Hm. split; [exact Hm|].
  unfold bestPaths. rewrite Hm. reflexivity.
Qed.

(** The scan of [getBestProtocol] uses [best = 0] for "no path seen yet".
    A path of type 0 brings that state back: whatever the scan has seen,
    it goes on as from the start. *)
Lemma getBestProtocol_loop_type_0 (before after : list ptr)
    (z : Path StaticPath_t BGPPath_t) (best : Z) :
  Forall uint8_path before -> 0 <= best -> Type_ z = 0 ->
  getBestProtocol_loop (before ++ Some z :: after) best
  = getBestProtocol_loop after 0.
Proof.
  intros Hb. revert best.
  induction Hb as [|q l (p & -> & Hp) Hl IH]; intros best Hbest Hz; cbn.
  - rewrite Hz. destruct (Z.eqb_spec best 0); [reflexivity|].
    destruct (Z.ltb_spec 0 best); [reflexivity | lia].
  - destruct (best =? 0); [|destruct (Type_ p <? best)];
      apply IH; auto; lia.
Qed.


(** C3 (amended).  [AddPath] appends [p] to the paths of [r]
    unconditionally, also when an equal path is already present, so the
    paths grow by one entry; the active paths are then recomputed by
    [bestPaths] on the extended paths.  There is no error result, and the
    call completes whenever neither [p] nor an entry of [r]'s paths is
    nil. *)
Theorem AddPath_appends (r : Route Prefix_t StaticPath_t BGPPath_t) (p : ptr) :
  (forall q, In q (paths r) -> q <> None) -> p <> None ->
  exists r',
    AddPath staticPathSelection bgpPathSelection r p = Some r'
    /\ paths r' = paths r ++ [p]
    /\ List.length (paths r') = S (List.length (paths r))
    /\ pfx r' = pfx r
    /\ bestPaths staticPathSelection bgpPathSelection
         (mkRoute (pfx r) (activePaths r) (paths r ++ [p])) = Some r'.
Proof.
  intros Hr Hp. unfold AddPath, bestPaths, getBestProtocol. cbn [paths pfx].
  destruct (getBestProtocol_total (paths r ++ [p]) 0) as (m & Hm).
  { intros q Hq. apply in_app_or in Hq. destruct Hq as [Hq | [<- | []]]; auto. }
  rewrite Hm. eexists. split; [reflexivity|]. cbn [paths pfx].
  repeat split. rewrite length_app. cbn. lia.
Qed.

(** After [AddPath] and [AddPaths] the active paths are those [bestPaths]
    computes from the new paths. *)
Lemma AddPaths_appends (r : Route Prefix_t StaticPath_t BGPPath_t) (ps : list ptr) :
  AddPaths staticPathSelection bgpPathSelection r ps
  = bestPaths staticPathSelection bgpPathSelection
      (mkRoute (pfx r) (activePaths r) (paths r ++ ps)).
Proof.
  unfold AddPaths. f_equal. f_equal.
  generalize (paths r). induction ps as [|p ps IH]; intros l; cbn.
  - symmetry. apply app_nil_r.
  - rewrite IH, <- app_assoc. reflexivity.
Qed.

End SelectionFacts.

Lemma staticPathSelection_static {Prefix_t StaticPath_t BGPPath_t : Type}
    (r : Route Prefix_t StaticPath_t BGPPath_t) (q : PathPtr StaticPath_t BGPPath_t) :
  In q (RTSpec.staticPathSelection r) -> is_static q.
Proof.
  unfold RTSpec.staticPathSelection. rewrite filter_In. intros [_ H].
  destruct q as [p|]; [|discriminate]. exists p. split; [reflexivity|].
  apply Z.eqb_eq, H.
Qed.

(** Scenario 5 of the spec, with an OSPF and an IS-IS path besides the
    BGP one: the static path is the active set. *)
Lemma bestPaths_static_outranks_bgp :
  option_map activePaths
    (ex_bestPaths
       (mkRoute ex_pfx [] [bgp_path 7; ospf_path; isis_path; static_path 1]))
  = Some [static_path 1].
Proof.
  assert (Hty : Forall typed_path [bgp_path 7; ospf_path; isis_path; static_path 1]).
  { rewrite Forall_forall. intros q [<- | [<- | [<- | [<- | []]]]];
      eexists; (split; [reflexivity | vm_compute; split; discriminate]). }
  assert (Hst : exists q,
             In q [bgp_path 7; ospf_path; isis_path; static_path 1] /\ is_static q).
  { exists (static_path 1). split; [do 3 right; left; reflexivity|].
    eexists. split; reflexivity. }
  destruct (bestPaths_typed_static Z Z Z RTSpec.staticPathSelection
              no_bgp_selection
              (mkRoute ex_pfx [] [bgp_path 7; ospf_path; isis_path; static_path 1])
              Hty Hst)
    as (_ & H).
  unfold ex_bestPaths. rewrite H. reflexivity.
Qed.


(** Adding a first static path, by the theorem. *)
Lemma AddPath_appends_example :
  option_map paths (ex_AddPath (NewRoute ex_pfx []) (static_path 1))
  = Some [static_path 1].
Proof.
  destruct (AddPath_appends Z Z Z RTSpec.staticPathSelection no_bgp_selection
              (NewRoute ex_pfx []) (static_path 1))
    as (r' & H & Hp & _).
  - intros q [].
  - discriminate.
  - unfold ex_AddPath. rewrite H. cbn [option_map]. rewrite Hp. reflexivity.
Defined.

(** C3 (as stated) fails: adding a path that is already present changes
    the paths. *)
Lemma AddPath_duplicate :
  ex_AddPath (mkRoute ex_pfx [static_path 1] [static_path 1]) (static_path 1)
  = Some (mkRoute ex_pfx [static_path 1; static_path 1]
            [static_path 1; static_path 1])
  /\ [static_path 1; static_path 1] <> [static_path 1].
Proof.
  split; [reflexivity | discriminate].
Qed.

(** C2, at the failing input: after adding a static path and withdrawing
    it, the paths are empty and [Remove] reports the entry final, but the
    active paths still hold the withdrawn path, where [bestPaths] on the
    same route selects nothing. *)
Lemma Remove_stale_activePaths :
  ex_AddPath (NewRoute ex_pfx []) (static_path 1)
  = Some (mkRoute ex_pfx [static_path 1] [static_path 1])
  /\ ex_Remove (mkRoute ex_pfx [static_path 1] [static_path 1])
       (NewRoute ex_pfx [static_path 1])
     = Some (mkRoute ex_pfx [static_path 1] [], true)
  /\ ex_bestPaths (mkRoute ex_pfx [static_path 1] [])
     = Some (mkRoute ex_pfx [] []).
Proof.
  repeat split.
Qed.

End RTFacts.

(** * Further properties of the decoder *)

Module MorePacketFacts.
Import Packet PacketSpec PacketBody MoreSpec.

(** ** The byte reader *)

Lemma be_uint_app (bs : list byte) (b : byte) :
  be_uint (bs ++ [b]) = be_uint bs * 256 + byteZ b.
Proof.
  unfold be_uint. rewrite fold_left_app. reflexivity.
Qed.

Lemma be_uint_bounds (bs : list byte) :
  0 <= be_uint bs < 256 ^ Z.of_nat (List.length bs).
Proof.
  induction bs as [|b bs IH] using rev_ind.
  - cbn. lia.
  - rewrite be_uint_app, length_app. cbn [List.length].
    replace (Z.of_nat (List.length bs + 1)) with (Z.succ (Z.of_nat (List.length bs))) by lia.
    rewrite Z.pow_succ_r by lia.
    pose proof (PacketFacts.byteZ_range b). lia.
Qed.

Lemma binary_Read_enough (w : nat) (buf : buffer) :
  (w <= List.length buf)%nat ->
  binary_Read w buf = (inl (be_uint (firstn w buf)), skipn w buf).
Proof.
  intros H. unfold binary_Read, io_ReadFull.
  destruct (Nat.leb_spec w (List.length buf)); [reflexivity | lia].
Qed.

Lemma binary_Read_short (w : nat) (buf : buffer) :
  (List.length buf < w)%nat ->
  exists io, binary_Read w buf = (inr io, [])
             /\ (io = EOF <-> buf = []).
Proof.
  intros H. unfold binary_Read, io_ReadFull.
  destruct (Nat.leb_spec w (List.length buf)); [lia|].
  destruct buf.
  - exists EOF. split; [reflexivity | tauto].
  - exists ErrUnexpectedEOF. split; [reflexivity|]. split; discriminate.
Qed.

Lemma decode_short (fields : list nat) (buf : buffer) :
  (List.length buf < list_sum fields)%nat ->
  exists vs io,
    decode buf fields
    = (vs, Some (Errorf ("Unable to read from buffer: " ++ ioerr_Error io)%string), [])
    /\ (List.length vs < List.length fields)%nat
    /\ vs = map be_uint (chunks (firstn (List.length vs) fields) buf).
Proof.
  revert buf. induction fields as [|w fields IH]; intros buf H.
  - cbn in H. lia.
  - change (list_sum (w :: fields)) with (w + list_sum fields)%nat in H.
    cbn [decode]. destruct (Nat.le_gt_cases w (List.length buf)) as [Hw | Hw].
    + rewrite (binary_Read_enough w buf Hw).
      destruct (IH (skipn w buf)) as (vs & io & -> & Hl & Hv).
      { rewrite length_skipn. lia. }
      exists (be_uint (firstn w buf) :: vs), io. repeat split.
      * cbn [List.length]. lia.
      * cbn [List.length firstn chunks map]. f_equal. exact Hv.
    + destruct (binary_Read_short w buf Hw) as (io & -> & _).
      exists [], io. repeat split. cbn. lia.
Qed.

(** X1.  [decode] succeeds exactly when the buffer holds at least as many
    bytes as the fields are wide; it then returns the big-endian values
    of the consecutive runs of bytes, each below [256 ^ width], and
    leaves the buffer behind these bytes. *)
Theorem decode_ok_iff (fields : list nat) (buf : buffer) (vs : list Z) (rest : buffer) :
  (decode buf fields = (vs, None, rest)
   <-> (list_sum fields <= List.length buf)%nat
       /\ vs = map be_uint (chunks fields buf)
       /\ rest = skipn (list_sum fields) buf)
  /\ Forall (fun c => 0 <= be_uint c < 256 ^ Z.of_nat (List.length c))
       (chunks fields buf).
Proof.
  split; [|apply Forall_forall; intros c _; apply be_uint_bounds].
  revert buf vs rest.
  induction fields as [|w fields IH]; intros buf vs rest; cbn [decode chunks map].
  2: change (list_sum (w :: fields)) with (w + list_sum fields)%nat.
  - change (list_sum []) with 0%nat. split.
    + intros [= <- <-]. repeat split. lia.
    + intros (_ & -> & ->). reflexivity.
  - destruct (Nat.le_gt_cases w (List.length buf)) as [Hw | Hw].
    + rewrite (binary_Read_enough w buf Hw).
      destruct (decode (skipn w buf) fields) as [[vs' e'] rest'] eqn:D.
      split.
      * intros [= <- -> <-].
        destruct (proj1 (IH (skipn w buf) vs' rest') D) as (Hs & -> & ->).
        rewrite length_skipn in Hs. repeat split; [lia|].
        rewrite skipn_skipn. f_equal. lia.
      * intros (Hs & -> & ->).
        assert (D' : decode (skipn w buf) fields
                     = (map be_uint (chunks fields (skipn w buf)), None,
                        skipn (list_sum fields) (skipn w buf))).
        { apply IH. rewrite length_skipn. repeat split. lia. }
        rewrite D' in D. injection D as <- <- <-.
        rewrite skipn_skipn, (Nat.add_comm (list_sum fields) w). reflexivity.
    + destruct (binary_Read_short w buf Hw) as (io & -> & _).
      split; [discriminate|]. intros (Hs & _). lia.
Qed.



(** ** The header on inputs of any length *)

Lemma split_header (buf : buffer) :
  (19 <= List.length buf)%nat ->
  exists marker a b c rest,
    buf = marker ++ a :: b :: c :: rest /\ List.length marker = 16%nat.
Proof.
  intros H. exists (firstn 16 buf).
  assert (Hs : (3 <= List.length (skipn 16 buf))%nat) by (rewrite length_skipn; lia).
  destruct (skipn 16 buf) as [|a [|b [|c rest]]] eqn:E; cbn in Hs; try lia.
  exists a, b, c, rest. split.
  - rewrite <- E. symmetry. apply firstn_skipn.
  - rewrite length_firstn. lia.
Qed.

Lemma all_ff_existsb (marker : list byte) :
  existsb (fun b => negb (Byte.eqb b xff)) marker = false
  <-> (forall x, In x marker -> x = xff).
Proof.
  split.
  - intros H x Hx. destruct (Byte.eqb x xff) eqn:E.
    + apply Byte.byte_dec_bl, E.
    + assert (Ht : existsb (fun b => negb (Byte.eqb b xff)) marker = true).
      { apply existsb_exists. exists x. rewrite E. auto. }
      rewrite Ht in H. discriminate H.
  - intros H. destruct (existsb _ marker) eqn:E; [|reflexivity].
    apply PacketFacts.existsb_not_ff in E. destruct E as (x & Hx & Hne).
    elim Hne. auto.
Qed.

(** The header decoder on an input shorter than a header, as one
    equation. *)
Lemma decodeHeader_short_eq (buf : buffer) :
  (List.length buf < 19)%nat ->
  exists s,
    decodeHeader buf
    = if (16 <=? List.length buf)%nat
         && existsb (fun b => negb (Byte.eqb b xff)) (firstn 16 buf)
      then (None,
            Some (ErrBGP (BGPError.mk MessageHeaderError ConnectionNotSync s)),
            skipn 16 buf)
      else (Some (BGPHeader.mk
                    (if (18 <=? List.length buf)%nat
                     then be_uint (firstn 2 (skipn 16 buf)) else 0) 0),
            Some (ErrBGP (BGPError.mk Cease 0 s)), []).
Proof.
  intros Hlen. unfold decodeHeader, buf_Read, MarkerLen.
  destruct buf as [|x0 buf0] eqn:Eb.
  { eexists. reflexivity. }
  rewrite <- Eb in *. assert (Hne : buf <> []) by (rewrite Eb; discriminate).
  clear Eb x0 buf0.
  destruct buf as [|x0 buf0] eqn:Eb; [contradiction|]. rewrite <- Eb in *.
  clear Eb x0 buf0 Hne.
  rewrite length_firstn.
  destruct (Nat.leb_spec 16 (List.length buf)) as [H16|H16].
  - replace (Nat.min 16 (List.length buf)) with 16%nat by lia.
    cbn [Nat.eqb negb andb].
    destruct (existsb _ (firstn 16 buf)); [eexists; reflexivity|].
    assert (Hs : (List.length (skipn 16 buf) < 3)%nat) by (rewrite length_skipn; lia).
    destruct (skipn 16 buf) as [|a [|b [|c t]]] eqn:E; cbn in Hs; try lia.
    + replace (18 <=? List.length buf)%nat with false
        by (symmetry; apply Nat.leb_gt;
            apply (f_equal (@List.length byte)) in E; rewrite length_skipn in E;
            cbn in E; lia).
      eexists. reflexivity.
    + replace (18 <=? List.length buf)%nat with false
        by (symmetry; apply Nat.leb_gt;
            apply (f_equal (@List.length byte)) in E; rewrite length_skipn in E;
            cbn in E; lia).
      eexists. reflexivity.
    + replace (18 <=? List.length buf)%nat with true
        by (symmetry; apply Nat.leb_le;
            apply (f_equal (@List.length byte)) in E; rewrite length_skipn in E;
            cbn in E; lia).
      eexists. reflexivity.
  - replace (Nat.min 16 (List.length buf)) with (List.length buf) by lia.
    replace (List.length buf =? 16)%nat with false by (symmetry; apply Nat.eqb_neq; lia).
    cbn [negb andb].
    replace (18 <=? List.length buf)%nat with false by (symmetry; apply Nat.leb_gt; lia).
    rewrite (skipn_all2 buf (n := 16)) by lia.
    eexists. reflexivity.
Qed.

Lemma decodeHeader_ok_cases (buf : buffer) (hdr : option BGPHeader.t) (rest : buffer) :
  decodeHeader buf = (hdr, None, rest)
  <-> exists marker a b c,
        buf = marker ++ a :: b :: c :: rest
        /\ List.length marker = 16%nat
        /\ (forall x, In x marker -> x = xff)
        /\ hdr = Some (BGPHeader.mk (be_uint [a; b]) (byteZ c))
        /\ 19 <= be_uint [a; b] <= 4096
        /\ 1 <= byteZ c <= 4.
Proof.
  split.
  - intros H. destruct (Nat.le_gt_cases 19 (List.length buf)) as [Hl | Hl].
    + destruct (split_header buf Hl) as (marker & a & b & c & rest' & -> & Hm).
      rewrite (PacketFacts.decodeHeader_eq marker a b c rest' Hm) in H.
      cbv zeta in H. unfold MinLen, MaxLen, KeepaliveMsg in H.
      destruct (existsb _ marker) eqn:Ex; [discriminate|].
      destruct (Z.ltb_spec (be_uint [a; b]) 19); [discriminate|].
      rewrite Z.gtb_ltb in H.
      destruct (Z.ltb_spec 4096 (be_uint [a; b])); [discriminate|].
      cbn [orb] in H. rewrite Z.gtb_ltb in H.
      destruct (Z.ltb_spec 4 (byteZ c)); [discriminate|].
      destruct (Z.eqb_spec (byteZ c) 0); [discriminate|].
      cbn [orb] in H. injection H as <- <-.
      exists marker, a, b, c. pose proof (PacketFacts.byteZ_range c).
      repeat split; try lia. apply all_ff_existsb, Ex.
    + destruct (decodeHeader_short_eq buf Hl) as (s & E). rewrite E in H.
      destruct (_ && _); discriminate.
  - intros (marker & a & b & c & -> & Hm & Hall & -> & Hlen & Hty).
    rewrite (PacketFacts.decodeHeader_eq marker a b c rest Hm). cbv zeta.
    unfold MinLen, MaxLen, KeepaliveMsg.
    rewrite (proj2 (all_ff_existsb marker) Hall).
    replace (be_uint [a; b] <? 19) with false by (symmetry; apply Z.ltb_ge; lia).
    replace (be_uint [a; b] >? 4096) with false
      by (symmetry; rewrite Z.gtb_ltb; apply Z.ltb_ge; lia).
    replace (byteZ c >? 4) with false
      by (symmetry; rewrite Z.gtb_ltb; apply Z.ltb_ge; lia).
    replace (byteZ c =? 0) with false by (symmetry; apply Z.eqb_neq; lia).
    reflexivity.
Qed.

(** X3.  On an input of any length [decodeHeader] returns no error
    exactly when the input starts with sixteen [0xFF] bytes, a length in
    [19..4096] and a type in [1..4]; it then returns that header and has
    consumed exactly these 19 bytes. *)
Theorem decodeHeader_ok_iff (buf : buffer) (hdr : option BGPHeader.t) (rest : buffer) :
  decodeHeader buf = (hdr, None, rest)
  <-> exists marker a b c,
        buf = marker ++ a :: b :: c :: rest
        /\ List.length marker = 16%nat
        /\ (forall x, In x marker -> x = xff)
        /\ hdr = Some (BGPHeader.mk (be_uint [a; b]) (byteZ c))
        /\ 19 <= be_uint [a; b] <= 4096
        /\ 1 <= byteZ c <= 4.
Proof.
  exact (decodeHeader_ok_cases buf hdr rest).
Qed.

(** X4.  An input shorter than 19 bytes is always refused.  The error is
    Cease/0 with a non-nil header and a drained buffer when fewer than 16
    bytes are there or the marker is sixteen [0xFF]; it is
    MessageHeaderError/ConnectionNotSync with a nil header, after the 16
    marker bytes, when a full marker is there and is not sixteen
    [0xFF]. *)
Theorem decodeHeader_short (buf : buffer) :
  (List.length buf < 19)%nat ->
  exists hdr e rest,
    decodeHeader buf = (hdr, Some (ErrBGP e), rest)
    /\ ((List.length buf < 16)%nat \/ (forall x, In x (firstn 16 buf) -> x = xff) ->
        BGPError.ErrorCode e = Cease /\ BGPError.ErrorSubCode e = 0
        /\ hdr <> None /\ rest = [])
    /\ ((16 <= List.length buf)%nat ->
        (exists x, In x (firstn 16 buf) /\ x <> xff) ->
        BGPError.ErrorCode e = MessageHeaderError
        /\ BGPError.ErrorSubCode e = ConnectionNotSync
        /\ hdr = None /\ rest = skipn 16 buf).
Proof.
  intros Hl. destruct (decodeHeader_short_eq buf Hl) as (s & E). rewrite E.
  destruct (Nat.leb_spec 16 (List.length buf)) as [H16 | H16]; cbn [andb].
  - destruct (existsb _ (firstn 16 buf)) eqn:Ex.
    + do 3 eexists. split; [reflexivity|]. split.
      * intros [H | H]; [lia|]. apply all_ff_existsb in H. congruence.
      * intros _ _. repeat split.
    + do 3 eexists. split; [reflexivity|]. split.
      * intros _. repeat split. discriminate.
      * intros _ (x & Hx & Hne). elim Hne.
        apply (proj1 (all_ff_existsb _) Ex), Hx.
  - do 3 eexists. split; [reflexivity|]. split.
    + intros _. repeat split. discriminate.
    + intros H. lia.
Qed.

(** Three bytes: too short for a marker. *)
Lemma decodeHeader_short_three_bytes :
  decodeHeader [xff; xff; x00]
  = (Some (BGPHeader.mk 0 0),
     Some (ErrBGP (BGPError.mk Cease 0 "Unable to read marker")), []).
Proof.
  destruct (decodeHeader_short [xff; xff; x00]) as (hdr & e & rest & H & _);
    [cbn; lia|].
  rewrite H. vm_compute in H. injection H as <- <- <-. reflexivity.
Defined.

(** X5.  Whatever the input, an error of [decodeHeader] is a [BGPError]
    whose code and subcode are Cease/0, MessageHeaderError/ConnectionNotSync,
    MessageHeaderError/BadMessageLength or MessageHeaderError/BadMessageType;
    the returned header pointer is nil exactly in the ConnectionNotSync
    case, and is never nil when there is no error. *)
Theorem decodeHeader_error_codes (buf : buffer) :
  match decodeHeader buf with
  | (hdr, None, _) => hdr <> None
  | (_, Some (Errorf _), _) => False
  | (hdr, Some (ErrBGP e), _) =>
      In (BGPError.ErrorCode e, BGPError.ErrorSubCode e)
        [(Cease, 0); (MessageHeaderError, ConnectionNotSync);
         (MessageHeaderError, BadMessageLength);
         (MessageHeaderError, BadMessageType)]
      /\ (hdr = None
          <-> BGPError.ErrorCode e = MessageHeaderError
              /\ BGPError.ErrorSubCode e = ConnectionNotSync)
  end.
Proof.
  destruct (Nat.le_gt_cases 19 (List.length buf)) as [Hl | Hl].
  - destruct (split_header buf Hl) as (marker & a & b & c & rest' & -> & Hm).
    rewrite (PacketFacts.decodeHeader_eq marker a b c rest' Hm). cbv zeta.
    destruct (existsb _ marker).
    { cbn. split; [auto|]. split; auto. }
    destruct (_ || _).
    { cbn. split; [auto|]. split; [discriminate|]. intros [_ H]; discriminate H. }
    destruct (_ || _).
    { cbn. split; [auto 6|]. split; [discriminate|]. intros [_ H]; discriminate H. }
    discriminate.
  - destruct (decodeHeader_short_eq buf Hl) as (s & ->).
    destruct (_ && _); cbn.
    + split; [auto|]. split; auto.
    + split; [auto|]. split; [discriminate|]. intros [H _]; discriminate H.
Qed.

(** ** Notification bodies of any length *)

Lemma notification_eq (c s : byte) (rest : buffer) :
  decodeNotificationMsg (c :: s :: rest)
  = (BGPNotification.mk (byteZ c) (byteZ s),
     if pair_allowed (byteZ c) (byteZ s) then None
     else if byteZ c >? Cease then
       Some (Errorf ("Invalid error code: " ++ fmt_d (byteZ s))%string)
     else snd (invalidErrCode (BGPNotification.mk (byteZ c) (byteZ s))),
     rest).
Proof.
  unfold decodeNotificationMsg. rewrite PacketFacts.decode_two_bytes.
  unfold field. cbn [nth]. cbv zeta.
  cbn [BGPNotification.ErrorCode BGPNotification.ErrorSubcode].
  pose proof (PacketFacts.notification_outcome (byteZ c) (byteZ s)
                (PacketFacts.byteZ_range c) (PacketFacts.byteZ_range s)) as H.
  cbv zeta in H. rewrite <- H.
  repeat match goal with
    | |- context [if ?t then _ else _] => destruct t
    end; reflexivity.
Qed.

(** X6.  On a body of any length the Notification decoder returns no
    error exactly when the body starts with a (code, subcode) pair of the
    table; the message then holds that pair and exactly two bytes are
    consumed. *)
Theorem decodeNotificationMsg_ok_iff (buf : buffer) (msg : BGPNotification.t)
    (rest : buffer) :
  decodeNotificationMsg buf = (msg, None, rest)
  <-> exists c s,
        buf = c :: s :: rest
        /\ msg = BGPNotification.mk (byteZ c) (byteZ s)
        /\ pair_allowed (byteZ c) (byteZ s) = true.
Proof.
  split.
  - destruct buf as [|c [|s rest']]; [discriminate | discriminate |].
    rewrite notification_eq.
    destruct (pair_allowed (byteZ c) (byteZ s)) eqn:E.
    + intros [= <- <-]. exists c, s. auto.
    + destruct (byteZ c >? Cease); discriminate.
  - intros (c & s & -> & -> & E). rewrite notification_eq, E. reflexivity.
Qed.

(** X7.  A Notification body of fewer than two bytes gives the reader's
    "EOF" error (never "unexpected EOF": both fields are single bytes)
    with the buffer drained; a lone first byte is kept as the error
    code, and the subcode stays 0. *)
Theorem decodeNotificationMsg_short (buf : buffer) :
  (List.length buf < 2)%nat ->
  decodeNotificationMsg buf
  = (BGPNotification.mk (be_uint buf) 0,
     Some (Errorf "Unable to read from buffer: EOF"), []).
Proof.
  destruct buf as [|c [|s rest]]; cbn [List.length]; intros H;
    [reflexivity | reflexivity | lia].
Qed.

(** A body that holds the code 6 only. *)
Lemma decodeNotificationMsg_short_one_byte :
  decodeNotificationMsg [x06]
  = (BGPNotification.mk 6 0, Some (Errorf "Unable to read from buffer: EOF"), []).
Proof.
  rewrite (decodeNotificationMsg_short [x06]); [reflexivity | cbn; lia].
Defined.

(** ** Path attribute flags *)

(** X8.  [decodePathAttrFlags] consumes one byte and sets the four flags
    from its four high bits (0x80 optional, 0x40 transitive, 0x20 partial,
    0x10 extended length): the flags make up the byte with its low four
    bits cleared, which are ignored.  The other fields of the attribute
    are untouched.  On an empty buffer it fails with the reader's error
    and leaves the attribute as it was. *)
Theorem decodePathAttrFlags_high_nibble (b : byte) (rest : buffer) (pa : PathAttribute) :
  (exists pa',
      decodePathAttrFlags (b :: rest) pa = (pa', None, rest)
      /\ flags_byte pa' = Z.land (byteZ b) 240
      /\ TypeCode pa' = TypeCode pa /\ Length pa' = Length pa
      /\ Value pa' = Value pa)
  /\ decodePathAttrFlags [] pa
     = (pa, Some (Errorf "Unable to read from buffer: EOF"), []).
Proof.
  split; [|reflexivity].
  eexists. split; [reflexivity|].
  split; [|repeat split].
  unfold flags_byte, field. cbn [Optional Transitive Partial ExtendedLength nth].
  change (be_uint [b]) with (byteZ b).
  destruct b; reflexivity.
Qed.

(** ** Open bodies *)

Lemma split_open (body : buffer) :
  (10 <= List.length body)%nat ->
  exists v a1 a2 h1 h2 i1 i2 i3 i4 o rest,
    body = v :: a1 :: a2 :: h1 :: h2 :: i1 :: i2 :: i3 :: i4 :: o :: rest.
Proof.
  intros H.
  destruct body as [|v [|a1 [|a2 [|h1 [|h2 [|i1 [|i2 [|i3 [|i4 [|o rest]]]]]]]]]];
    cbn in H; try lia.
  repeat eexists.
Qed.

Lemma open_identifier_range (body : buffer) :
  0 <= open_identifier body < 2 ^ 32.
Proof.
  unfold open_identifier.
  pose proof (be_uint_bounds (firstn 4 (skipn 5 body))) as H.
  assert (Hl : (List.length (firstn 4 (skipn 5 body)) <= 4)%nat)
    by (rewrite length_firstn; lia).
  assert (Hp : 256 ^ Z.of_nat (List.length (firstn 4 (skipn 5 body))) <= 256 ^ 4)
    by (apply Z.pow_le_mono_r; lia).
  change (2 ^ 32) with (256 ^ 4). lia.
Qed.

(** The Open decoder on a body of at least ten bytes, as one equation. *)
Lemma _decodeOpenMsg_eq (v a1 a2 h1 h2 i1 i2 i3 i4 o : byte) (rest : buffer) :
  let body := v :: a1 :: a2 :: h1 :: h2 :: i1 :: i2 :: i3 :: i4 :: o :: rest in
  let msg := BGPOpen.mk (byteZ v) (be_uint [a1; a2]) (be_uint [h1; h2])
               (open_identifier body) (byteZ o) in
  _decodeOpenMsg body
  = if negb (byteZ v =? 4) then
      (None,
       Some (ErrBGP (BGPError.mk OpenMessageError UnsupportedVersionNumber
                       "Unsupported version number")), rest)
    else if negb (isValidIdentifier (open_identifier body)) then
      (None,
       Some (ErrBGP (BGPError.mk OpenMessageError BadBGPIdentifier
                       "Invalid BGP identifier")), rest)
    else (Some msg, None, rest).
Proof.
  cbv zeta. unfold _decodeOpenMsg.
  change (decode (v :: a1 :: a2 :: h1 :: h2 :: i1 :: i2 :: i3 :: i4 :: o :: rest)
            [1%nat; 2%nat; 2%nat; 4%nat; 1%nat])
    with ([byteZ v; be_uint [a1; a2]; be_uint [h1; h2];
           be_uint [i1; i2; i3; i4]; byteZ o], @None error, rest).
  unfold field, validateOpen, open_identifier.
  cbn [nth skipn firstn BGPOpen.Version BGPOpen.BGPIdentifier]. unfold BGP4Version.
  destruct (byteZ v =? 4); cbn [negb]; [|reflexivity].
  destruct (isValidIdentifier _); reflexivity.
Qed.

(** X9.  On a body of at least ten bytes [_decodeOpenMsg] reads the five
    fixed fields big-endian and consumes exactly these ten bytes: the
    optional parameters that [OptParmLen] announces stay in the buffer.
    The version is checked first: a version other than 4 gives
    UnsupportedVersionNumber whatever the identifier; then a reserved
    identifier gives BadBGPIdentifier; in both cases the returned
    interface is nil.  Otherwise the message is returned. *)
Theorem _decodeOpenMsg_ten_bytes (v a1 a2 h1 h2 i1 i2 i3 i4 o : byte) (rest : buffer) :
  let body := v :: a1 :: a2 :: h1 :: h2 :: i1 :: i2 :: i3 :: i4 :: o :: rest in
  let msg := BGPOpen.mk (byteZ v) (be_uint [a1; a2]) (be_uint [h1; h2])
               (be_uint [i1; i2; i3; i4]) (byteZ o) in
  (byteZ v <> 4 ->
   _decodeOpenMsg body
   = (None,
      Some (ErrBGP (BGPError.mk OpenMessageError UnsupportedVersionNumber
                      "Unsupported version number")), rest))
  /\ (byteZ v = 4 -> reserved_identifier (be_uint [i1; i2; i3; i4]) ->
      _decodeOpenMsg body
      = (None,
         Some (ErrBGP (BGPError.mk OpenMessageError BadBGPIdentifier
                         "Invalid BGP identifier")), rest))
  /\ (byteZ v = 4 -> ~ reserved_identifier (be_uint [i1; i2; i3; i4]) ->
      _decodeOpenMsg body = (Some msg, None, rest)).
Proof.
  cbv zeta.
  pose proof (_decodeOpenMsg_eq v a1 a2 h1 h2 i1 i2 i3 i4 o rest) as E.
  cbv zeta in E. rewrite E. clear E.
  pose proof (open_identifier_range
                (v :: a1 :: a2 :: h1 :: h2 :: i1 :: i2 :: i3 :: i4 :: o :: rest)) as Hr.
  pose proof (PacketFacts.isValidIdentifier_false_iff _ Hr) as Hiff.
  change (open_identifier
            (v :: a1 :: a2 :: h1 :: h2 :: i1 :: i2 :: i3 :: i4 :: o :: rest))
    with (be_uint [i1; i2; i3; i4]) in *.
  split; [|split].
  - intros Hv. destruct (Z.eqb_spec (byteZ v) 4); [contradiction | reflexivity].
  - intros Hv Hres. rewrite Hv. cbn [Z.eqb Pos.eqb negb].
    apply Hiff in Hres. rewrite Hres. reflexivity.
  - intros Hv Hres. rewrite Hv. cbn [Z.eqb Pos.eqb negb].
    destruct (isValidIdentifier (be_uint [i1; i2; i3; i4])) eqn:E; [reflexivity|].
    elim Hres. apply Hiff. reflexivity.
Qed.

Lemma decodeOpenMsg_cases (body : buffer) :
  (decodeOpenMsg body = None
   <-> (10 <= List.length body)%nat
       /\ (open_version body <> 4 \/ reserved_identifier (open_identifier body)))
  /\ (forall msg e rest,
         decodeOpenMsg body = Some (msg, Some e, rest) ->
         (List.length body < 10)%nat /\ rest = []
         /\ exists io,
              e = Errorf ("Unable to read from buffer: " ++ ioerr_Error io)%string)
  /\ (forall msg rest,
         decodeOpenMsg body = Some (msg, None, rest) ->
         BGPOpen.Version msg = 4
         /\ ~ reserved_identifier (BGPOpen.BGPIdentifier msg)
         /\ BGPOpen.BGPIdentifier msg = open_identifier body
         /\ List.length body = (10 + List.length rest)%nat).
Proof.
  pose proof (PacketFacts.isValidIdentifier_false_iff _ (open_identifier_range body)) as Hiff.
  destruct (Nat.le_gt_cases 10 (List.length body)) as [Hl | Hl].
  - destruct (split_open body Hl)
      as (v & a1 & a2 & h1 & h2 & i1 & i2 & i3 & i4 & o & rest0 & ->).
    unfold decodeOpenMsg.
    pose proof (_decodeOpenMsg_eq v a1 a2 h1 h2 i1 i2 i3 i4 o rest0) as E.
    cbv zeta in E. rewrite E. clear E.
    change (open_version (v :: a1 :: a2 :: h1 :: h2 :: i1 :: i2 :: i3 :: i4 :: o :: rest0))
      with (byteZ v).
    destruct (Z.eqb_spec (byteZ v) 4) as [Hv | Hv]; cbn [negb].
    + destruct (isValidIdentifier _) eqn:Ev; cbn [negb].
      * split; [|split].
        -- split; [discriminate|]. intros (_ & [H | H]); [contradiction|].
           apply Hiff in H. congruence.
        -- discriminate.
        -- intros msg rest [= <- <-]. cbn [BGPOpen.Version BGPOpen.BGPIdentifier].
           repeat split; auto.
           intros H. apply Hiff in H. congruence.
      * split; [|split]; [|discriminate|discriminate].
        split; [|reflexivity]. intros _. split; [exact Hl|].
        right. apply Hiff. reflexivity.
    + split; [|split]; [|discriminate|discriminate].
      split; [|reflexivity]. intros _. split; [exact Hl|]. left. exact Hv.
  - unfold decodeOpenMsg, _decodeOpenMsg.
    destruct (decode_short [1%nat; 2%nat; 2%nat; 4%nat; 1%nat] body)
      as (vs & io & -> & _); [cbn; lia|].
    split; [|split].
    + split; [discriminate|]. intros [H _]. lia.
    + intros msg e rest [= _ <- <-]. repeat split; [exact Hl|]. exists io. reflexivity.
    + discriminate.
Qed.

(** X10.  [decodeOpenMsg] never returns an OpenMessageError.  It panics
    exactly when the body holds the ten fixed bytes and validation fails
    (a version other than 4, or a reserved identifier); an error it
    returns is the reader's, on a body shorter than ten bytes, with the
    buffer drained; and a message it returns without error has version 4
    and an accepted identifier, ten bytes being consumed. *)
Theorem decodeOpenMsg_outcomes (body : buffer) :
  (decodeOpenMsg body = None
   <-> (10 <= List.length body)%nat
       /\ (open_version body <> 4 \/ reserved_identifier (open_identifier body)))
  /\ (forall msg e rest,
         decodeOpenMsg body = Some (msg, Some e, rest) ->
         (List.length body < 10)%nat /\ rest = []
         /\ exists io,
              e = Errorf ("Unable to read from buffer: " ++ ioerr_Error io)%string)
  /\ (forall msg rest,
         decodeOpenMsg body = Some (msg, None, rest) ->
         BGPOpen.Version msg = 4
         /\ ~ reserved_identifier (BGPOpen.BGPIdentifier msg)
         /\ BGPOpen.BGPIdentifier msg = open_identifier body
         /\ List.length body = (10 + List.length rest)%nat).
Proof.
  exact (decodeOpenMsg_cases body).
Qed.

(** ** Decode *)

Section DecodeFacts.

Variable NLRI_t : Type.
Variable PathAttribute_t : Type.
Variable decodeNLRIs : buffer -> Z -> option NLRI_t * option error * buffer.
Variable decodePathAttrs : buffer -> Z -> option PathAttribute_t * option error * buffer.
Variable BGPError_Error : BGPError.t -> string.

(** X11.  A message with a valid marker, a length in [19..4096] and the
    type Keepalive decodes to that header with a nil body, and [Decode]
    consumes the 19 header bytes only: the declared length is not compared
    with 19, and the bytes it announces beyond the header stay in the
    buffer. *)
Theorem Decode_keepalive (marker : list byte) (a b c : byte) (rest : buffer) :
  List.length marker = 16%nat ->
  (forall x, In x marker -> x = xff) ->
  19 <= be_uint [a; b] <= 4096 ->
  byteZ c = KeepaliveMsg ->
  Decode decodeNLRIs decodePathAttrs BGPError_Error (marker ++ a :: b :: c :: rest)
  = Some (Some (mkBGPMessage (BGPHeader.mk (be_uint [a; b]) KeepaliveMsg) None),
          None, rest).
Proof.
  intros Hm Hall Hlen Hc. unfold Decode.
  assert (Hh : decodeHeader (marker ++ a :: b :: c :: rest)
               = (Some (BGPHeader.mk (be_uint [a; b]) (byteZ c)), None, rest)).
  { apply decodeHeader_ok_cases. exists marker, a, b, c.
    unfold KeepaliveMsg in Hc. repeat split; auto; lia. }
  rewrite Hh, Hc. reflexivity.
Qed.

(** X12.  [Decode] panics exactly on a message with a valid header of
    type Open whose body holds the ten fixed bytes and fails validation
    (a version other than 4, or a reserved identifier): the
    OpenMessageError that [validateOpen] builds never reaches the
    caller. *)
Theorem Decode_panics_iff (buf : buffer) :
  Decode decodeNLRIs decodePathAttrs BGPError_Error buf = None
  <-> exists marker a b c body,
        buf = marker ++ a :: b :: c :: body
        /\ List.length marker = 16%nat
        /\ (forall x, In x marker -> x = xff)
        /\ 19 <= be_uint [a; b] <= 4096
        /\ byteZ c = OpenMsg
        /\ (10 <= List.length body)%nat
        /\ (open_version body <> 4 \/ reserved_identifier (open_identifier body)).
Proof.
  unfold Decode. split.
  - destruct (decodeHeader buf) as [[hdr [e|]] body] eqn:Hh; [destruct hdr; intros H; discriminate H|].
    apply decodeHeader_ok_cases in Hh.
    destruct Hh as (marker & a & b & c & -> & Hm & Hall & -> & Hlen & Hty).
    cbn [BGPHeader.Type_ BGPHeader.Length]. unfold decodeMsgBody.
    destruct (Z.eqb_spec (byteZ c) OpenMsg) as [Hc | Hc].
    + destruct (decodeOpenMsg body) as [[[m err] b']|] eqn:Ho.
      { destruct err; intros H; discriminate H. }
      intros _. apply decodeOpenMsg_cases in Ho. destruct Ho as [Hl Hbad].
      exists marker, a, b, c, body. repeat split; auto; lia.
    + destruct (byteZ c =? UpdateMsg).
      { destruct (decodeUpdateMsg _ _ _ _) as [[m [e|]] b']; intros H; discriminate H. }
      destruct (byteZ c =? KeepaliveMsg); [intros H; discriminate H|].
      destruct (byteZ c =? NotificationMsg); [|intros H; discriminate H].
      destruct (decodeNotificationMsg body) as [[m [e|]] b']; intros H; discriminate H.
  - intros (marker & a & b & c & body & -> & Hm & Hall & Hlen & Hc & Hl & Hbad).
    assert (Hh : decodeHeader (marker ++ a :: b :: c :: body)
                 = (Some (BGPHeader.mk (be_uint [a; b]) (byteZ c)), None, body)).
    { apply decodeHeader_ok_cases. exists marker, a, b, c.
      unfold OpenMsg in Hc. repeat split; auto; lia. }
    rewrite Hh. cbn [BGPHeader.Type_ BGPHeader.Length]. unfold decodeMsgBody.
    rewrite Hc. cbn [Z.eqb OpenMsg Pos.eqb].
    replace (decodeOpenMsg body) with (@None (BGPOpen.t * option error * buffer));
      [reflexivity|].
    symmetry. apply decodeOpenMsg_cases. auto.
Qed.

(** X13.  An error of [Decode] comes with no message and is never a
    [BGPError]: it is a plain error whose text is "Failed to decode
    header: " followed by the text of the header error, or "Failed to
    decode message: " followed by the text of the error of the Open,
    Update or Notification decoder run on the body.  The "Unknown message
    type" branch of the dispatch is never taken, and the Update decoder
    is given the header length less 19. *)
Theorem Decode_error_origin (buf : buffer) m (e : error) (rest : buffer) :
  Decode decodeNLRIs decodePathAttrs BGPError_Error buf = Some (m, Some e, rest) ->
  m = None
  /\ ((exists hdr e0,
          decodeHeader buf = (hdr, Some e0, rest)
          /\ e = Errorf ("Failed to decode header: "
                           ++ error_Error BGPError_Error e0)%string)
      \/ (exists hdr body e0,
             decodeHeader buf = (Some hdr, None, body)
             /\ e = Errorf ("Failed to decode message: "
                              ++ error_Error BGPError_Error e0)%string
             /\ ((BGPHeader.Type_ hdr = OpenMsg
                  /\ exists x, decodeOpenMsg body = Some (x, Some e0, rest))
                 \/ (BGPHeader.Type_ hdr = UpdateMsg
                     /\ exists x,
                          decodeUpdateMsg decodeNLRIs decodePathAttrs body
                            (BGPHeader.Length hdr - 19)
                          = (x, Some e0, rest))
                 \/ (BGPHeader.Type_ hdr = NotificationMsg
                     /\ exists x,
                          decodeNotificationMsg body = (x, Some e0, rest))))).
Proof.
  unfold Decode.
  destruct (decodeHeader buf) as [[hdr [e0|]] body] eqn:Hh.
  { destruct hdr; intros [= <- <- <-]; (split; [reflexivity|]); left; eauto. }
  pose proof Hh as Hh'. apply decodeHeader_ok_cases in Hh'.
  destruct Hh' as (marker & a & b & c & -> & Hm & Hall & -> & Hlen & Hty).
  cbn [BGPHeader.Type_ BGPHeader.Length]. unfold decodeMsgBody.
  replace (uint16 (be_uint [a; b] - MinLen)) with (be_uint [a; b] - 19)
    by (unfold uint16, MinLen; rewrite Z.mod_small; lia).
  destruct (Z.eqb_spec (byteZ c) OpenMsg) as [Hc | Hc].
  { destruct (decodeOpenMsg body) as [[[x [e0|]] b']|] eqn:Ho;
      try (intros H; discriminate H).
    intros [= <- <- <-]. split; [reflexivity|]. right.
    exists (BGPHeader.mk (be_uint [a; b]) (byteZ c)), body, e0.
    repeat split. left. split; [exact Hc | eauto]. }
  destruct (Z.eqb_spec (byteZ c) UpdateMsg) as [Hu | Hu].
  { destruct (decodeUpdateMsg _ _ _ _) as [[x [e0|]] b'] eqn:Ho;
      try (intros H; discriminate H).
    intros [= <- <- <-]. split; [reflexivity|]. right.
    exists (BGPHeader.mk (be_uint [a; b]) (byteZ c)), body, e0.
    repeat split. right; left. split; [exact Hu | eauto]. }
  destruct (Z.eqb_spec (byteZ c) KeepaliveMsg) as [Hk | Hk];
    [intros H; discriminate H|].
  destruct (Z.eqb_spec (byteZ c) NotificationMsg) as [Hn | Hn].
  { destruct (decodeNotificationMsg body) as [[x [e0|]] b'] eqn:Ho;
      try (intros H; discriminate H).
    intros [= <- <- <-]. split; [reflexivity|]. right.
    exists (BGPHeader.mk (be_uint [a; b]) (byteZ c)), body, e0.
    repeat split. right; right. split; [exact Hn | eauto]. }
  intros [= <- <- <-].
  unfold OpenMsg, UpdateMsg, KeepaliveMsg, NotificationMsg in *. lia.
Qed.

End DecodeFacts.

Lemma skip_decoder_consumes : consumes_budget skip_decoder.
Proof.
  intros buf n x rest. unfold skip_decoder.
  destruct (Z.leb_spec 0 n) as [Hn|Hn]; cbn [andb]; [|discriminate].
  destruct (Nat.leb_spec (Z.to_nat n) (List.length buf)) as [Hl|Hl]; [|discriminate].
  intros [= _ <-]. exists (firstn (Z.to_nat n) buf). split.
  - symmetry. apply firstn_skipn.
  - rewrite length_firstn. lia.
Qed.

(** A Keepalive header that declares 23 bytes, followed by four bytes:
    the four bytes stay in the buffer. *)
Lemma Decode_keepalive_declared_23 :
  Decode skip_decoder skip_decoder BGPError.ErrorStr
    (repeat xff 16 ++ [x00; x17; x04; x01; x02; x03; x04])
  = Some (Some (mkBGPMessage (BGPHeader.mk 23 4) None), None,
          [x01; x02; x03; x04]).
Proof.
  apply (Decode_keepalive unit unit skip_decoder skip_decoder BGPError.ErrorStr
           (repeat xff 16) x00 x17 x04 [x01; x02; x03; x04]).
  - reflexivity.
  - intros x Hx. apply repeat_spec in Hx. exact Hx.
  - vm_compute. split; discriminate.
  - reflexivity.
Defined.

(** On an empty buffer [Decode] returns a plain error and no message. *)
Lemma Decode_error_origin_empty :
  exists e,
    Decode skip_decoder skip_decoder BGPError.ErrorStr []
    = Some (None, Some e, [])
    /\ exists s, e = Errorf s.
Proof.
  eexists. split; [reflexivity|].
  destruct (Decode_error_origin unit unit skip_decoder skip_decoder
              BGPError.ErrorStr [] None _ [] eq_refl)
    as [_ [(hdr & e0 & _ & H) | (hdr & body & e0 & _ & H & _)]];
    eexists; exact H.
Defined.

(** ** Update: what a successful decoding consumes *)

Section UpdateConsumption.

Variable NLRI_t : Type.
Variable PathAttribute_t : Type.
Variable decodeNLRIs : buffer -> Z -> option NLRI_t * option error * buffer.
Variable decodePathAttrs : buffer -> Z -> option PathAttribute_t * option error * buffer.

(** X14.  When [decodeNLRIs] and [decodePathAttrs] consume exactly the
    budget they are given, a successful [decodeUpdateMsg] consumes the two
    length fields, the withdrawn routes, the path attributes and the
    16-bit NLRI length; when the lengths read fit the declared body
    length [l], this is exactly [l] bytes. *)
Theorem decodeUpdateMsg_consumes (buf : buffer) (l : Z)
    (msg : BGPUpdate NLRI_t PathAttribute_t) (rest : buffer) :
  consumes_budget decodeNLRIs -> consumes_budget decodePathAttrs ->
  0 <= l < 65536 ->
  decodeUpdateMsg decodeNLRIs decodePathAttrs buf l = (msg, None, rest) ->
  exists used,
    buf = used ++ rest
    /\ Z.of_nat (List.length used)
       = 4 + WithdrawnRoutesLen msg + TotalPathAttrLen msg
         + nlri_len l (TotalPathAttrLen msg) (WithdrawnRoutesLen msg) mod 65536
    /\ (0 <= nlri_len l (TotalPathAttrLen msg) (WithdrawnRoutesLen msg) ->
        Z.of_nat (List.length used) = l).
Proof.
  intros HN HP Hl. unfold decodeUpdateMsg.
  destruct (decode buf [2%nat]) as [[vs e1] b1] eqn:D1.
  destruct (PacketFacts.decode_u16_inv _ _ _ _ D1)
    as [(a & b & -> & -> & ->) | (io & -> & ->)]; [|discriminate].
  unfold field. cbn [nth]. cbv zeta.
  pose proof (PacketFacts.be_uint_2_range a b) as Hwrl.
  replace (uint16 (be_uint [a; b])) with (be_uint [a; b])
    by (unfold uint16; rewrite Z.mod_small; lia).
  destruct (decodeNLRIs b1 (be_uint [a; b])) as [[wr [e2|]] b2] eqn:D2; [discriminate|].
  destruct (HN _ _ _ _ D2) as (u1 & -> & Hu1).
  destruct (decode b2 [2%nat]) as [[vs' e3] b3] eqn:D3.
  destruct (PacketFacts.decode_u16_inv _ _ _ _ D3)
    as [(a' & b' & -> & -> & ->) | (io & -> & ->)]; [|discriminate].
  cbn [nth]. pose proof (PacketFacts.be_uint_2_range a' b') as Htpal.
  destruct (decodePathAttrs b3 (be_uint [a'; b'])) as [[pa [e4|]] b4] eqn:D4;
    [discriminate|].
  destruct (HP _ _ _ _ D4) as (u2 & -> & Hu2).
  replace (uint16 (uint16 (uint16 (uint16 l - 4) - uint16 (be_uint [a'; b']))
                   - be_uint [a; b]))
    with (nlri_len l (be_uint [a'; b']) (be_uint [a; b]) mod 65536)
    by (unfold uint16, nlri_len; Z.div_mod_to_equations; lia).
  set (n := nlri_len l (be_uint [a'; b']) (be_uint [a; b]) mod 65536).
  assert (Hn : 0 <= n < 65536) by (apply Z.mod_pos_bound; lia).
  destruct (Z.gtb_spec n 0) as [Hpos | Hzero].
  - destruct (decodeNLRIs b4 n) as [[nlri [e5|]] b5] eqn:D5; [discriminate|].
    destruct (HN _ _ _ _ D5) as (u3 & -> & Hu3).
    intros [= <- <-]. cbn [WithdrawnRoutesLen TotalPathAttrLen]. fold n.
    exists (a :: b :: u1 ++ a' :: b' :: u2 ++ u3). repeat split.
    + cbn [app]. rewrite <- !app_assoc. cbn [app]. rewrite <- !app_assoc. reflexivity.
    + cbn [List.length]. rewrite !length_app. cbn [List.length]. rewrite !length_app. lia.
    + intros Hge. cbn [List.length]. rewrite !length_app. cbn [List.length].
      rewrite !length_app.
      assert (n = nlri_len l (be_uint [a'; b']) (be_uint [a; b])).
      { unfold n. apply Z.mod_small. unfold nlri_len in *. lia. }
      unfold nlri_len in *. lia.
  - intros [= <- <-]. cbn [WithdrawnRoutesLen TotalPathAttrLen]. fold n.
    exists (a :: b :: u1 ++ a' :: b' :: u2). repeat split.
    + cbn [app]. rewrite <- !app_assoc. reflexivity.
    + cbn [List.length]. rewrite !length_app. cbn [List.length]. lia.
    + intros Hge. cbn [List.length]. rewrite !length_app. cbn [List.length].
      assert (n = nlri_len l (be_uint [a'; b']) (be_uint [a; b])).
      { unfold n. apply Z.mod_small. unfold nlri_len in *. lia. }
      unfold nlri_len in *. lia.
Qed.

End UpdateConsumption.

(** The eight-byte Update body, decoders that skip their budget: all
    eight bytes are consumed. *)
Lemma decodeUpdateMsg_consumes_small :
  exists used : buffer,
    small_update_body = used ++ [] /\ Z.of_nat (List.length used) = 8.
Proof.
  destruct (decodeUpdateMsg_consumes unit unit skip_decoder skip_decoder
              small_update_body 8
              (mkBGPUpdate 0 None 0 None None) []
              skip_decoder_consumes skip_decoder_consumes)
    as (used & Hu & Hlen & Hl).
  - lia.
  - reflexivity.
  - exists used. split; [exact Hu|]. apply Hl. vm_compute. discriminate.
Defined.

End MorePacketFacts.

(** * Further properties of the route entry *)

From Stdlib Require Import Permutation.

Module MoreRTFacts.
Import RT RTSpec MoreRTSpec.

Section EqualMore.

Variable StaticPath_t : Type.
Variable BGPPath_t : Type.
Variable BGPPath_eq_dec : forall a b : BGPPath_t, {a = b} + {a <> b}.

Local Abbreviation ptr := (PathPtr StaticPath_t BGPPath_t).

Lemma Equal_sym (p q : ptr) :
  Equal BGPPath_eq_dec p q = Equal BGPPath_eq_dec q p.
Proof.
  unfold Equal. destruct p as [p|], q as [q|]; try reflexivity.
  rewrite (Z.eqb_sym (Type_ q) (Type_ p)).
  destruct (Z.eqb_spec (Type_ p) (Type_ q)) as [Ht|Ht]; cbn [negb]; [|reflexivity].
  rewrite <- Ht. destruct (Type_ p =? BGPPathType); [|reflexivity].
  destruct (BGPPath p) as [a|], (BGPPath q) as [b|]; try reflexivity.
  destruct (BGPPath_eq_dec a b), (BGPPath_eq_dec b a); congruence.
Qed.

Lemma Equal_refl (p : ptr) :
  wf_path p -> p <> None -> Equal BGPPath_eq_dec p p = Some true.
Proof.
  intros Hwf Hp. destruct p as [p|]; [|contradiction].
  apply RTFacts.Equal_true_iff. exists p, p. repeat split.
  intros Hb. cbn in Hwf. destruct (BGPPath p) as [a|]; [eauto|].
  elim (Hwf Hb). reflexivity.
Qed.

(** X15.  [Path.Equal] is symmetric (also in where it panics) and
    transitive.  It holds of a path and itself for every non-nil path
    whose payload it can read, but a nil path is not equal to anything,
    itself included. *)
Theorem Equal_partial_equivalence (p q r : ptr) :
  Equal BGPPath_eq_dec p q = Equal BGPPath_eq_dec q p
  /\ (Equal BGPPath_eq_dec p q = Some true ->
      Equal BGPPath_eq_dec q r = Some true ->
      Equal BGPPath_eq_dec p r = Some true)
  /\ (wf_path p -> p <> None -> Equal BGPPath_eq_dec p p = Some true)
  /\ Equal BGPPath_eq_dec None q = Some false
  /\ Equal BGPPath_eq_dec p None = Some false.
Proof.
  split; [apply Equal_sym|]. split; [|split; [apply Equal_refl|]].
  - intros H1 H2. apply RTFacts.Equal_true_iff in H1, H2.
    destruct H1 as (p' & q' & -> & -> & Ht1 & Hb1).
    destruct H2 as (q'' & r' & [= <-] & -> & Ht2 & Hb2).
    apply RTFacts.Equal_true_iff. exists p', r'. repeat split; [congruence|].
    intros Hb. destruct (Hb1 Hb) as (a & Ha & Ha').
    rewrite Ht1 in Hb. destruct (Hb2 Hb) as (b & Hb' & Hb'').
    exists a. split; [exact Ha | congruence].
  - split; [reflexivity|]. destruct p; reflexivity.
Qed.

(** X16.  [Path.Equal] panics exactly when both paths are non-nil, carry
    the BGP type, and one of them has a nil BGP payload. *)
Theorem Equal_panics_iff (p q : ptr) :
  Equal BGPPath_eq_dec p q = None
  <-> exists p' q',
        p = Some p' /\ q = Some q'
        /\ Type_ p' = BGPPathType /\ Type_ q' = BGPPathType
        /\ (BGPPath p' = None \/ BGPPath q' = None).
Proof.
  unfold Equal. split.
  - destruct p as [p'|]; [|discriminate]. destruct q as [q'|]; [|discriminate].
    destruct (Z.eqb_spec (Type_ p') (Type_ q')) as [Ht|Ht]; cbn [negb]; [|discriminate].
    destruct (Z.eqb_spec (Type_ p') BGPPathType) as [Hb|Hb]; [|discriminate].
    intros H. exists p', q'. repeat split; [exact Hb | congruence |].
    destruct (BGPPath p'); [|auto]. destruct (BGPPath q'); [|auto].
    destruct (BGPPath_eq_dec b b0); discriminate.
  - intros (p' & q' & -> & -> & Hp & Hq & Hnil).
    rewrite Hp, Hq. cbn [Z.eqb BGPPathType Pos.eqb negb].
    destruct Hnil as [-> | ->]; [reflexivity|].
    destruct (BGPPath p'); reflexivity.
Qed.

End EqualMore.

(** ** Withdrawals *)

Section RemoveMore.

Variable Prefix_t : Type.
Variable StaticPath_t : Type.
Variable BGPPath_t : Type.
Variable BGPPath_eq_dec : forall a b : BGPPath_t, {a = b} + {a <> b}.

Local Abbreviation ptr := (PathPtr StaticPath_t BGPPath_t).
Local Abbreviation eqb := (equalb BGPPath_eq_dec).

Lemma equalb_nil_l (q : ptr) : eqb None q = false.
Proof. reflexivity. Qed.

Lemma equalb_nil_r (p : ptr) : eqb p None = false.
Proof. unfold equalb, Equal. destruct p; reflexivity. Qed.

Lemma equalb_refl (p : ptr) : wf_path p -> p <> None -> eqb p p = true.
Proof.
  intros Hw Hp. unfold equalb.
  rewrite (Equal_refl _ _ BGPPath_eq_dec p Hw Hp). reflexivity.
Qed.

Lemma remove_first_length (del : ptr) (l : list ptr) :
  List.length (remove_first BGPPath_eq_dec del l)
  = if existsb (fun x => eqb x del) l
    then (List.length l - 1)%nat else List.length l.
Proof.
  induction l as [|x l IH]; cbn [remove_first existsb List.length]; [reflexivity|].
  destruct (eqb x del); cbn [orb List.length]; [lia|].
  rewrite IH. destruct (existsb _ l) eqn:E; [|reflexivity].
  destruct l; [discriminate E | cbn [List.length]; lia].
Qed.

Lemma remove_all_first_own (l nils : list ptr) :
  Forall wf_path l ->
  (forall x, In x nils -> x = None) ->
  remove_all_first BGPPath_eq_dec l (nils ++ l) = nils ++ filter is_nil l.
Proof.
  unfold remove_all_first. intros Hl. revert nils.
  induction Hl as [|x l Hx Hl IH]; intros nils Hn; cbn [fold_left filter].
  - reflexivity.
  - destruct x as [p|]; cbn [is_nil].
    + rewrite RTFacts.remove_first_match.
      * apply IH, Hn.
      * intros y Hy. rewrite (Hn y Hy). apply equalb_nil_l.
      * apply equalb_refl; [exact Hx | discriminate].
    + rewrite RTFacts.remove_first_no_match
        by (intros; apply equalb_nil_r).
      change (nils ++ None :: l) with (nils ++ [None] ++ l).
      rewrite app_assoc, IH.
      * rewrite <- app_assoc. reflexivity.
      * intros y Hy. apply in_app_or in Hy. destruct Hy as [Hy | [<- | []]]; auto.
Qed.

(** X17.  Withdrawing from a route a route that holds the same paths (in
    a slice of its own) removes every non-nil path: what is left are the
    nil entries, which no withdrawal can match.  A route without nil
    entries is emptied, and [Remove] returns [true]. *)
Theorem Remove_own_paths (r : Route Prefix_t StaticPath_t BGPPath_t)
    (pfx' : option Prefix_t) (active' : list ptr) :
  Forall wf_path (paths r) ->
  Remove BGPPath_eq_dec r (mkRoute pfx' active' (paths r))
  = Some (mkRoute (pfx r) (activePaths r) (filter is_nil (paths r)),
          (List.length (filter is_nil (paths r)) =? 0)%nat)
  /\ ((forall q, In q (paths r) -> q <> None) ->
      Remove BGPPath_eq_dec r (mkRoute pfx' active' (paths r))
      = Some (mkRoute (pfx r) (activePaths r) [], true)).
Proof.
  intros Hwf.
  assert (E : Remove BGPPath_eq_dec r (mkRoute pfx' active' (paths r))
              = Some (mkRoute (pfx r) (activePaths r) (filter is_nil (paths r)),
                      (List.length (filter is_nil (paths r)) =? 0)%nat)).
  { unfold Remove. cbn [paths].
    rewrite (RTFacts.Remove_loop_wf _ _ BGPPath_eq_dec _ _ Hwf Hwf).
    assert (E' := remove_all_first_own (paths r) [] Hwf).
    cbn [app] in E'. rewrite E' by (intros x []).
    reflexivity. }
  split; [exact E|]. intros Hnn. rewrite E.
  replace (filter is_nil (paths r)) with (@nil ptr); [reflexivity|].
  symmetry. clear E Hwf. revert Hnn. generalize (paths r) as l.
  induction l as [|x l IH]; intros Hnn; [reflexivity|].
  cbn [filter]. destruct x as [p|]; cbn [is_nil].
  - apply IH. intros q Hq. apply Hnn. right. exact Hq.
  - elim (Hnn None); [left|]; reflexivity.
Qed.

(** X18.  A withdrawal deletes at most one entry for each withdrawn path
    and adds none: the paths left are entries of the former paths, and
    their number lies between the former number less the number of
    withdrawn paths and the former number. *)
Theorem Remove_bounds (r rm : Route Prefix_t StaticPath_t BGPPath_t) :
  Forall wf_path (paths r) -> Forall wf_path (paths rm) ->
  exists ps final,
    Remove BGPPath_eq_dec r rm = Some (mkRoute (pfx r) (activePaths r) ps, final)
    /\ (List.length (paths r) - List.length (paths rm) <= List.length ps)%nat
    /\ (List.length ps <= List.length (paths r))%nat
    /\ (forall x, In x ps -> In x (paths r)).
Proof.
  intros Hr Hrm. unfold Remove.
  rewrite (RTFacts.Remove_loop_wf _ _ BGPPath_eq_dec _ _ Hr Hrm).
  do 2 eexists. split; [reflexivity|].
  clear Hr Hrm. unfold remove_all_first. generalize (paths r) as l.
  induction (paths rm) as [|d dels IH]; intros l; cbn [fold_left List.length].
  - repeat split; auto; lia.
  - destruct (IH (remove_first BGPPath_eq_dec d l)) as (H1 & H2 & H3).
    pose proof (remove_first_length d l) as Hlen.
    destruct (existsb _ l); repeat split; try lia.
    + intros x Hx. eapply RTFacts.remove_first_incl, H3, Hx.
    + intros x Hx. eapply RTFacts.remove_first_incl, H3, Hx.
Qed.

End RemoveMore.

(** Two static paths, one withdrawn: one stays. *)
Lemma Remove_bounds_example :
  exists ps final,
    ex_Remove (mkRoute ex_pfx [] [static_path 1; bgp_path 2])
      (mkRoute ex_pfx [] [bgp_path 2])
    = Some (mkRoute ex_pfx [] ps, final)
    /\ (1 <= List.length ps <= 2)%nat.
Proof.
  destruct (Remove_bounds Z Z Z Z.eq_dec
              (mkRoute ex_pfx [] [static_path 1; bgp_path 2])
              (mkRoute ex_pfx [] [bgp_path 2]))
    as (ps & final & H & H1 & H2 & _).
  - repeat constructor; discriminate.
  - repeat constructor; discriminate.
  - exists ps, final. split; [exact H|]. cbn in H1, H2. lia.
Defined.

(** A route that holds a static and a BGP path, withdrawn by a copy of
    itself. *)
Lemma Remove_own_paths_example :
  ex_Remove (mkRoute ex_pfx [static_path 1] [static_path 1; bgp_path 2])
    (mkRoute None [] [static_path 1; bgp_path 2])
  = Some (mkRoute ex_pfx [static_path 1] [], true).
Proof.
  assert (Hwf : Forall wf_path [static_path 1; bgp_path 2])
    by (repeat constructor; discriminate).
  destruct (Remove_own_paths Z Z Z Z.eq_dec
              (mkRoute ex_pfx [static_path 1] [static_path 1; bgp_path 2])
              None [] Hwf) as [_ H].
  apply H. intros q [<- | [<- | []]]; discriminate.
Defined.

(** ** Additions and selection *)

Section SelectionMore.

Variable Prefix_t : Type.
Variable StaticPath_t : Type.
Variable BGPPath_t : Type.
Variable BGPPath_eq_dec : forall a b : BGPPath_t, {a = b} + {a <> b}.
Variable staticPathSelection : Route Prefix_t StaticPath_t BGPPath_t
                               -> list (PathPtr StaticPath_t BGPPath_t).
Variable bgpPathSelection : Route Prefix_t StaticPath_t BGPPath_t
                            -> list (PathPtr StaticPath_t BGPPath_t).

Local Abbreviation ptr := (PathPtr StaticPath_t BGPPath_t).
Local Abbreviation eqb := (equalb BGPPath_eq_dec).
Local Abbreviation route := (Route Prefix_t StaticPath_t BGPPath_t).

(** What [bestPaths] returns when it does not panic: the same prefix and
    paths. *)
Lemma bestPaths_keeps (r r' : route) :
  bestPaths staticPathSelection bgpPathSelection r = Some r' ->
  pfx r' = pfx r /\ paths r' = paths r.
Proof.
  unfold bestPaths. destruct (getBestProtocol (paths r)); [|discriminate].
  intros [= <-]. split; reflexivity.
Qed.

Lemma bestPaths_total (r : route) :
  (forall q, In q (paths r) -> q <> None) ->
  exists r', bestPaths staticPathSelection bgpPathSelection r = Some r'.
Proof.
  intros H. unfold bestPaths, getBestProtocol.
  destruct (RTFacts.getBestProtocol_total _ _ (paths r) 0 H) as (m & ->). eauto.
Qed.

Lemma remove_first_snoc (p : ptr) (l : list ptr) :
  eqb p p = true ->
  remove_first BGPPath_eq_dec p (l ++ [p])
  = if existsb (fun x => eqb x p) l
    then remove_first BGPPath_eq_dec p l ++ [p] else l.
Proof.
  intros Hp. induction l as [|x l IH]; cbn [app remove_first existsb].
  - rewrite Hp. reflexivity.
  - destruct (eqb x p); cbn [orb]; [reflexivity|].
    rewrite IH. destruct (existsb _ l); reflexivity.
Qed.

(** X19.  Adding a path and then withdrawing it leaves as many paths as
    before; the paths themselves are restored when no former entry
    equals the path, and otherwise it is the first such entry that goes
    and the added path that stays, at the end.  The active paths are
    those selected after the addition: the withdrawal does not recompute
    them. *)
Theorem AddPath_then_Remove (r : route) (p : ptr)
    (pfx' : option Prefix_t) (active' : list ptr) :
  (forall q, In q (paths r) -> q <> None) -> p <> None ->
  Forall wf_path (paths r) -> wf_path p ->
  exists r1 r2,
    AddPath staticPathSelection bgpPathSelection r p = Some r1
    /\ Remove BGPPath_eq_dec r1 (mkRoute pfx' active' [p])
       = Some (r2, (List.length (paths r) =? 0)%nat)
    /\ List.length (paths r2) = List.length (paths r)
    /\ ((forall x, In x (paths r) -> eqb x p = false) -> paths r2 = paths r)
    /\ (existsb (fun x => eqb x p) (paths r) = true ->
        paths r2 = remove_first BGPPath_eq_dec p (paths r) ++ [p])
    /\ activePaths r2 = activePaths r1.
Proof.
  intros Hnn Hp Hwf Hwp.
  destruct (bestPaths_total (mkRoute (pfx r) (activePaths r) (paths r ++ [p])))
    as (r1 & H1).
  { cbn [paths]. intros q Hq. apply in_app_or in Hq.
    destruct Hq as [Hq | [<- | []]]; auto. }
  destruct (bestPaths_keeps _ _ H1) as [Hpfx Hpaths]. cbn [pfx paths] in Hpfx, Hpaths.
  exists r1. unfold AddPath. rewrite H1. unfold Remove. rewrite Hpaths. cbn [paths].
  assert (Hwf1 : Forall wf_path (paths r ++ [p])).
  { apply Forall_app. split; [exact Hwf|]. constructor; [exact Hwp | constructor]. }
  rewrite (RTFacts.Remove_loop_wf _ _ BGPPath_eq_dec _ _ Hwf1)
    by (constructor; [exact Hwp | constructor]).
  unfold remove_all_first. cbn [fold_left].
  rewrite (remove_first_snoc p (paths r))
    by (apply equalb_refl; assumption).
  pose proof (remove_first_length _ _ BGPPath_eq_dec p (paths r)) as Hlen.
  destruct (existsb (fun x => eqb x p) (paths r)) eqn:Ex.
  - assert (Hpos : (0 < List.length (paths r))%nat).
    { destruct (paths r); [discriminate Ex | cbn; lia]. }
    eexists. split; [reflexivity|]. split.
    { f_equal. f_equal. rewrite length_app, Hlen. cbn [List.length].
      destruct (paths r); cbn [List.length] in *; [lia|].
      replace (S (List.length l) - 1 + 1)%nat with (S (List.length l)) by lia.
      reflexivity. }
    cbn [paths activePaths]. repeat split.
    + rewrite length_app, Hlen. cbn [List.length]. lia.
    + intros Hno. apply existsb_exists in Ex. destruct Ex as (x & Hx & Ex).
      rewrite (Hno x Hx) in Ex. discriminate Ex.
  - eexists. split; [reflexivity|]. split; [reflexivity|].
    cbn [paths activePaths]. repeat split. discriminate.
Qed.

(** X20.  On paths that are non-nil and carry one of the four types,
    [getBestProtocol] does not depend on the order of the paths. *)
Theorem getBestProtocol_permutation (l l' : list ptr) :
  Forall typed_path l -> Permutation l l' ->
  getBestProtocol l = getBestProtocol l'.
Proof.
  intros Hl Hperm.
  assert (Hl' : Forall typed_path l').
  { rewrite Forall_forall in *. intros x Hx. apply Hl.
    eapply Permutation_in; [apply Permutation_sym, Hperm | exact Hx]. }
  destruct l as [|x l0] eqn:El.
  { apply Permutation_nil in Hperm. subst l'. reflexivity. }
  rewrite <- El in *. clear El x l0.
  destruct l' as [|x' l0'] eqn:El'.
  { apply Permutation_sym, Permutation_nil in Hperm. subst l. reflexivity. }
  rewrite <- El' in *.
  assert (Hne : l <> []).
  { intros E. subst l. apply Permutation_nil in Hperm. congruence. }
  assert (Hne' : l' <> []) by (rewrite El'; discriminate).
  clear El' x' l0'.
  destruct (RTFacts.getBestProtocol_min _ _ l Hl Hne) as (m & -> & (p & Hp & Hpm) & Hmin).
  destruct (RTFacts.getBestProtocol_min _ _ l' Hl' Hne') as (m' & -> & (p' & Hp' & Hpm') & Hmin').
  f_equal.
  pose proof (Hmin p' (Permutation_in _ (Permutation_sym Hperm) Hp')).
  pose proof (Hmin' p (Permutation_in _ Hperm Hp)). lia.
Qed.

(** X23.  [getBestProtocol] returns 0 on no path, panics exactly when a
    path is nil, and on a non-empty list of paths that carry one of the
    four types returns the smallest type ordinal present. *)
Theorem getBestProtocol_cases (l : list ptr) :
  getBestProtocol (@nil ptr) = Some 0
  /\ (getBestProtocol l = None <-> In None l)
  /\ (Forall typed_path l -> l <> [] ->
      exists m,
        getBestProtocol l = Some m
        /\ (exists p, In (Some p) l /\ Type_ p = m)
        /\ (forall p, In (Some p) l -> m <= Type_ p)).
Proof.
  split; [reflexivity|]. split; [|apply RTFacts.getBestProtocol_min].
  unfold getBestProtocol. generalize 0 as best.
  induction l as [|q l IH]; intros best; cbn [getBestProtocol_loop In].
  - split; [discriminate | tauto].
  - destruct q as [p|].
    + assert (H : forall b, getBestProtocol_loop l b = None
                            <-> Some p = None \/ In None l).
      { intros b. rewrite (IH b). split; [auto|]. intros [H | H]; [discriminate H | exact H]. }
      destruct (best =? 0); [|destruct (Type_ p <? best)]; apply H.
    + split; [auto | reflexivity].
Qed.

(** X21.  A route whose paths are all OSPF or IS-IS paths, or that has no
    path, gets an empty active set from [bestPaths], whatever the
    selection methods are: only the Static and BGP families have a
    selection. *)
Theorem bestPaths_no_selection (r : route) :
  Forall typed_path (paths r) ->
  (forall p, In (Some p) (paths r) ->
             Type_ p = OSPFPathType \/ Type_ p = ISISPathType) ->
  bestPaths staticPathSelection bgpPathSelection r
  = Some (mkRoute (pfx r) [] (paths r)).
Proof.
  intros Hty Hfam. unfold bestPaths.
  destruct (paths r) as [|x l] eqn:El; [reflexivity|]. rewrite <- El in *.
  assert (Hne : paths r <> []) by (rewrite El; discriminate).
  destruct (RTFacts.getBestProtocol_min _ _ (paths r) Hty Hne)
    as (m & -> & (p & Hp & Hpm) & _).
  destruct (Hfam p Hp) as [E | E]; rewrite <- Hpm, E; reflexivity.
Qed.

(** X22.  When the selection methods read the prefix and the paths only,
    adding the paths of a non-empty list one by one with [AddPath] gives
    the route that one [AddPaths] of the list gives. *)
Theorem AddPath_each_AddPaths (ps : list ptr) :
  reads_paths_only staticPathSelection ->
  reads_paths_only bgpPathSelection ->
  ps <> [] ->
  forall r : route,
    (forall q, In q (paths r) -> q <> None) ->
    (forall q, In q ps -> q <> None) ->
    AddPath_each staticPathSelection bgpPathSelection r ps
    = AddPaths staticPathSelection bgpPathSelection r ps.
Proof.
  intros Hs Hb Hne.
  assert (Hsame : forall r r' : route,
             pfx r = pfx r' -> paths r = paths r' ->
             bestPaths staticPathSelection bgpPathSelection r
             = bestPaths staticPathSelection bgpPathSelection r').
  { intros r r' Hp Hq. unfold bestPaths. rewrite Hp, Hq.
    rewrite (Hs r r' Hp Hq), (Hb r r' Hp Hq). reflexivity. }
  induction ps as [|p ps IH]; [contradiction|]. clear Hne.
  intros r Hr Hps. unfold AddPath_each. cbn [fold_left].
  destruct ps as [|p' ps'].
  { cbn [fold_left]. rewrite RTFacts.AddPaths_appends. reflexivity. }
  destruct (bestPaths_total (mkRoute (pfx r) (activePaths r) (paths r ++ [p])))
    as (r1 & H1).
  { cbn [paths]. intros q Hq. apply in_app_or in Hq.
    destruct Hq as [Hq | [<- | []]]; [auto | apply Hps; left; reflexivity]. }
  destruct (bestPaths_keeps _ _ H1) as [Hpfx Hpaths]. cbn [pfx paths] in Hpfx, Hpaths.
  unfold AddPath at 2. rewrite H1.
  change (fold_left _ (p' :: ps') (Some r1))
    with (AddPath_each staticPathSelection bgpPathSelection r1 (p' :: ps')).
  rewrite IH.
  - rewrite !RTFacts.AddPaths_appends. apply Hsame; cbn [pfx paths].
    + exact Hpfx.
    + rewrite Hpaths, <- app_assoc. reflexivity.
  - discriminate.
  - rewrite Hpaths. intros q Hq. apply in_app_or in Hq.
    destruct Hq as [Hq | [<- | []]]; [auto | apply Hps; left; reflexivity].
  - intros q Hq. apply Hps. right. exact Hq.
Qed.

End SelectionMore.

Lemma typed_examples (l : list (PathPtr Z Z)) :
  (forall q, In q l ->
             q = static_path 1 \/ q = bgp_path 7 \/ q = ospf_path \/ q = isis_path) ->
  Forall typed_path l.
Proof.
  intros H. apply Forall_forall. intros q Hq.
  destruct (H q Hq) as [-> | [-> | [-> | ->]]];
    eexists; (split; [reflexivity | vm_compute; split; discriminate]).
Qed.

(** A static path added to a route that holds a BGP path, and withdrawn
    again: the paths are back, the active paths are not. *)
Lemma AddPath_then_Remove_example :
  exists r1 r2,
    ex_AddPath (mkRoute ex_pfx [] [bgp_path 7]) (static_path 1) = Some r1
    /\ ex_Remove r1 (mkRoute None [] [static_path 1]) = Some (r2, false)
    /\ paths r2 = [bgp_path 7]
    /\ activePaths r2 = activePaths r1.
Proof.
  destruct (AddPath_then_Remove Z Z Z Z.eq_dec RTSpec.staticPathSelection
              no_bgp_selection (mkRoute ex_pfx [] [bgp_path 7]) (static_path 1)
              None [])
    as (r1 & r2 & H1 & H2 & _ & Hsame & _ & Hact).
  - intros q [<- | []]. discriminate.
  - discriminate.
  - repeat constructor. discriminate.
  - discriminate.
  - exists r1, r2. repeat split; [exact H1 | exact H2 | | exact Hact].
    apply Hsame. intros x [<- | []]. reflexivity.
Defined.

(** The order of a BGP and a static path does not matter. *)
Lemma getBestProtocol_permutation_example :
  getBestProtocol [bgp_path 7; static_path 1]
  = getBestProtocol [static_path 1; bgp_path 7].
Proof.
  apply getBestProtocol_permutation.
  - apply typed_examples. intros q [<- | [<- | []]]; auto.
  - apply perm_swap.
Defined.

(** With a path of type 0 the order matters. *)
Lemma getBestProtocol_untyped_order :
  getBestProtocol [static_path 1; untyped_path; bgp_path 7] = Some BGPPathType
  /\ getBestProtocol [untyped_path; static_path 1; bgp_path 7] = Some StaticPathType.
Proof. split; reflexivity. Qed.

(** An OSPF and an IS-IS path: nothing is active. *)
Lemma bestPaths_no_selection_example :
  ex_bestPaths (mkRoute ex_pfx [] [ospf_path; isis_path])
  = Some (mkRoute ex_pfx [] [ospf_path; isis_path]).
Proof.
  apply (bestPaths_no_selection Z Z Z RTSpec.staticPathSelection no_bgp_selection
           (mkRoute ex_pfx [] [ospf_path; isis_path])).
  - apply typed_examples. intros q [<- | [<- | []]]; auto.
  - intros p [[= <-] | [[= <-] | []]]; [left | right]; reflexivity.
Defined.

Lemma staticPathSelection_reads_paths_only :
  reads_paths_only (@RTSpec.staticPathSelection Z Z Z).
Proof.
  intros r r' _ H. unfold RTSpec.staticPathSelection. rewrite H. reflexivity.
Qed.

(** A static and a BGP path added one by one, or at once. *)
Lemma AddPath_each_AddPaths_example :
  AddPath_each RTSpec.staticPathSelection no_bgp_selection
    (NewRoute ex_pfx []) [static_path 1; bgp_path 7]
  = AddPaths RTSpec.staticPathSelection no_bgp_selection
      (NewRoute ex_pfx []) [static_path 1; bgp_path 7].
Proof.
  apply (AddPath_each_AddPaths Z Z Z RTSpec.staticPathSelection no_bgp_selection
           [static_path 1; bgp_path 7]).
  - apply staticPathSelection_reads_paths_only.
  - intros r r' _ _. reflexivity.
  - discriminate.
  - intros q [].
  - intros q [<- | [<- | []]]; discriminate.
Defined.

End MoreRTFacts.
